(** * Cloth simulation: particle/constraint engine

    A shallow embedding of the two Verlet cloth engines of the repository,
    [ClothSimulation.jsx] (module [Basic]) and [AdvancedClothSimulation.jsx]
    (module [Advanced]), together with the part of [THREE.Vector3] they call.

    JavaScript numbers are kept abstract behind the class [Number], which
    lists exactly the operations the two files apply to numbers.  Two
    interpretations are given:
    - [float_Number]: IEEE 754 binary64 (Rocq's primitive floats), which is
      what the program runs on; used to evaluate the code on concrete inputs;
    - [R_Number]: the real numbers, the exact arithmetic the formulas of the
      specification are written in.
    Everything that does not depend on arithmetic is proved for every
    interpretation at once.

    Objects shared by reference (a constraint holds its two vertices, the
    frame loop walks the same vertices) are modelled by a store: the vertex
    array is a list, a constraint holds two indices into it, and every
    mutation of a vertex is an update of the store at that index. *)

From Stdlib Require Import ZArith Reals Lra Lia Floats Uint63 Bool String.
From stdpp Require Import base list.

(** ** Numbers *)

Class Number (T : Type) := {
  (** [lit n d] is the value of the decimal literal whose exact value is the
      fraction [n / d] (so [lit 8 10] is [0.8] and [lit (-15) 10] is [-1.5]) *)
  lit : Z -> Z -> T;
  nadd : T -> T -> T;
  nsub : T -> T -> T;
  nmul : T -> T -> T;
  ndiv : T -> T -> T;
  Math_sqrt : T -> T;
  (** [a < b]; [a > b] is [nltb b a] *)
  nltb : T -> T -> bool;
  (** [a === b] *)
  neqb : T -> T -> bool
}.

Declare Scope js_scope.
Delimit Scope js_scope with js.
Infix "+" := nadd : js_scope.
Infix "-" := nsub : js_scope.
Infix "*" := nmul : js_scope.
Infix "/" := ndiv : js_scope.
Infix "<" := nltb : js_scope.
Notation "a > b" := (nltb b a) : js_scope.
Infix "===" := neqb (at level 70, no associativity) : js_scope.

(** [x || 1] takes the right operand when [x] is falsy: [0], [-0] or [NaN]
    ([NaN] is the one number that is not [===] to itself). *)
Definition falsy {T} `{Number T} (a : T) : bool :=
  (a === lit 0 1)%js || negb (a === a)%js.

(** *** binary64 *)

Definition float_of_Z (n : Z) : float :=
  match n with
  | Z0 => PrimFloat.zero
  | Zpos _ => PrimFloat.of_uint63 (Uint63.of_Z n)
  | Zneg p => PrimFloat.opp (PrimFloat.of_uint63 (Uint63.of_Z (Zpos p)))
  end.

(** Numerator and denominator of the literals of the program are small
    integers, exact in binary64, and binary64 division rounds to nearest:
    the quotient is the double the literal denotes. *)
#[export] Instance float_Number : Number float := {
  lit n d := PrimFloat.div (float_of_Z n) (float_of_Z d);
  nadd := PrimFloat.add;
  nsub := PrimFloat.sub;
  nmul := PrimFloat.mul;
  ndiv := PrimFloat.div;
  Math_sqrt := PrimFloat.sqrt;
  nltb := PrimFloat.ltb;
  neqb := PrimFloat.eqb
}.

(** A double is [finite] when it is neither [NaN] nor an infinity, and
    [isZero] when it is [0] or [-0]. *)
Definition finite (a : float) : bool :=
  match Prim2SF a with
  | S754_zero _ | S754_finite _ _ _ => true
  | _ => false
  end.

Definition isZero (a : float) : bool :=
  match Prim2SF a with
  | S754_zero _ => true
  | _ => false
  end.

(** *** real numbers *)

Definition Rltb (a b : R) : bool := if Rlt_dec a b then true else false.
Definition Reqb (a b : R) : bool := if Req_dec_T a b then true else false.

#[export] Instance R_Number : Number R := {
  lit n d := (IZR n / IZR d)%R;
  nadd := Rplus;
  nsub := Rminus;
  nmul := Rmult;
  ndiv := Rdiv;
  Math_sqrt := R_sqrt.sqrt;
  nltb := Rltb;
  neqb := Reqb
}.

(** ** THREE.Vector3

    The methods of three.js's [Vector3] that the simulation calls.  The
    JavaScript methods mutate their receiver and return it; here each
    returns the new value of the receiver (so [clone] and [copy] vanish). *)

Module THREE.

Record Vector3 (T : Type) := mk { x : T; y : T; z : T }.
Arguments mk {T} _ _ _.
Arguments x {T} _.
Arguments y {T} _.
Arguments z {T} _.

Section Methods.
Context {T : Type} `{Number T}.
Local Open Scope js_scope.

Definition add (this v : Vector3 T) : Vector3 T :=
  mk (x this + x v) (y this + y v) (z this + z v).

Definition sub (this v : Vector3 T) : Vector3 T :=
  mk (x this - x v) (y this - y v) (z this - z v).

Definition multiplyScalar (this : Vector3 T) (scalar : T) : Vector3 T :=
  mk (x this * scalar) (y this * scalar) (z this * scalar).

(** [divideScalar(s)] is [multiplyScalar(1 / s)] *)
Definition divideScalar (this : Vector3 T) (scalar : T) : Vector3 T :=
  multiplyScalar this (lit 1 1 / scalar).

Definition dot (this v : Vector3 T) : T :=
  x this * x v + y this * y v + z this * z v.

Definition length (this : Vector3 T) : T :=
  Math_sqrt (x this * x this + y this * y this + z this * z this).

(** [normalize()] is [divideScalar(length() || 1)] *)
Definition normalize (this : Vector3 T) : Vector3 T :=
  let l := length this in
  divideScalar this (if falsy l then lit 1 1 else l).

Definition distanceToSquared (this v : Vector3 T) : T :=
  let dx := x this - x v in
  let dy := y this - y v in
  let dz := z this - z v in
  dx * dx + dy * dy + dz * dz.

Definition distanceTo (this v : Vector3 T) : T :=
  Math_sqrt (distanceToSquared this v).

End Methods.
End THREE.

(** The sum of the forces given to a particle during a frame *)
Definition totalForce {T : Type} `{Number T} (fs : list (THREE.Vector3 T))
  : THREE.Vector3 T :=
  foldr THREE.add (THREE.mk (lit 0 1) (lit 0 1) (lit 0 1)) fs.

(** The loops of the frame callback walk an array by index, reading the
    element that is in the store when its turn comes. *)
Definition forEach {S : Type} (n : nat) (f : nat -> S -> S) (s : S) : S :=
  fold_left (fun s i => f i s) (seq 0 n) s.

(** [for (let j = start; j < n; j += stride)]: the indices visited, in order *)
Definition strided (start stride n : nat) : list nat :=
  filter (fun j => (j - start) mod stride = 0) (seq start (n - start)).

(** A loop counter, used as a number *)
Definition num {T : Type} `{Number T} (n : nat) : T := lit (Z.of_nat n) 1.

(** The two nested loops that fill an array, row after row:
    [for (let y = 0; y <= segY; y++) for (let x = 0; x <= segX; x++) push(...)].
    The element pushed may depend on how many were pushed before it. *)
Definition buildGrid {A : Type} (segX segY : nat) (cell : nat -> nat -> nat -> A)
  : list A :=
  forEach (S segY)
    (fun y arr =>
       forEach (S segX) (fun x arr => arr ++ [cell (List.length arr) x y]) arr)
    [].

(** "Create indices for triangular faces": two triangles per cell *)
Definition faceIndices (segX segY : nat) : list nat :=
  forEach segY
    (fun y indices =>
       forEach segX
         (fun x indices =>
            let a := (y * (segX + 1) + x)%nat in
            let b := (a + 1)%nat in
            let c := (a + segX + 1)%nat in
            let d := (c + 1)%nat in
            (indices ++ [a; c; b]) ++ [b; c; d])
         indices)
    [].

(** ** AdvancedClothSimulation.jsx *)

Module Advanced.

Section Constants.
Context {T : Type} `{Number T}.

Definition DAMPING : T := lit 995 1000.
Definition STIFFNESS : T := lit 5 10.
Definition GRAVITY : T := lit (-98) 10000.
Definition WIND_STRENGTH : T := lit 4 1000.
Definition TEAR_THRESHOLD : T := lit 8 10.

End Constants.

(** *** class AdvancedVerletVertex *)

Record AdvancedVerletVertex (T : Type) := mkVertex {
  position : THREE.Vector3 T;
  oldPosition : THREE.Vector3 T;
  acceleration : THREE.Vector3 T;
  isFixed : bool;
  mass : T;
  pinned : bool
}.
Arguments mkVertex {T} _ _ _ _ _ _.
Arguments position {T} _.
Arguments oldPosition {T} _.
Arguments acceleration {T} _.
Arguments isFixed {T} _.
Arguments mass {T} _.
Arguments pinned {T} _.

(** *** class AdvancedVerletConstraint

    [v1] and [v2] are the positions of the two vertices in the vertex
    array (the source holds the two objects themselves). *)
Record AdvancedVerletConstraint (T : Type) := mkConstraint {
  v1 : nat;
  v2 : nat;
  restLength : T;
  stiffness : T;
  active : bool
}.
Arguments mkConstraint {T} _ _ _ _ _.
Arguments v1 {T} _.
Arguments v2 {T} _.
Arguments restLength {T} _.
Arguments stiffness {T} _.
Arguments active {T} _.

(** The obstacle, [sphere.current] *)
Record Sphere (T : Type) := mkSphere {
  sphere_position : THREE.Vector3 T;
  radius : T;
  lastPosition : THREE.Vector3 T
}.
Arguments mkSphere {T} _ _ _.
Arguments sphere_position {T} _.
Arguments radius {T} _.
Arguments lastPosition {T} _.

(** The component's properties that reach the simulation *)
Record Props (T : Type) := mkProps {
  showSphere : bool;
  windIntensity : T;
  enableTearing : bool
}.
Arguments mkProps {T} _ _ _.
Arguments showSphere {T} _.
Arguments windIntensity {T} _.
Arguments enableTearing {T} _.

(** What one call of the frame callback is given: whether the mesh is
    mounted ([meshRef.current]), the clock's elapsed time and the time
    since the previous frame. *)
Record Frame (T : Type) := mkFrame {
  meshMounted : bool;
  elapsedTime : T;
  deltaTime : T
}.
Arguments mkFrame {T} _ _ _.
Arguments meshMounted {T} _.
Arguments elapsedTime {T} _.
Arguments deltaTime {T} _.

(** The references the component keeps between frames *)
Record State (T : Type) := mkState {
  vertices : list (AdvancedVerletVertex T);
  constraints : list (AdvancedVerletConstraint T);
  sphere : Sphere T;
  frameCount : nat
}.
Arguments mkState {T} _ _ _ _.
Arguments vertices {T} _.
Arguments constraints {T} _.
Arguments sphere {T} _.
Arguments frameCount {T} _.

Section Engine.
Context {T : Type} `{Number T}.
Local Open Scope js_scope.

Local Abbreviation Vertex := (AdvancedVerletVertex T).
Local Abbreviation Constraint := (AdvancedVerletConstraint T).

Definition free (this : Vertex) : bool :=
  negb (isFixed this) && negb (pinned this).

Definition setPosition (p : THREE.Vector3 T) (this : Vertex) : Vertex :=
  mkVertex p (oldPosition this) (acceleration this)
           (isFixed this) (mass this) (pinned this).

Definition setOldPosition (p : THREE.Vector3 T) (this : Vertex) : Vertex :=
  mkVertex (position this) p (acceleration this)
           (isFixed this) (mass this) (pinned this).

Definition setAcceleration (a : THREE.Vector3 T) (this : Vertex) : Vertex :=
  mkVertex (position this) (oldPosition this) a
           (isFixed this) (mass this) (pinned this).

(** [new AdvancedVerletVertex(x, y, z, isFixed)] *)
Definition newVertex (x y z : T) (isFixed : bool) : Vertex :=
  mkVertex (THREE.mk x y z) (THREE.mk x y z)
           (THREE.mk (lit 0 1) (lit 0 1) (lit 0 1))
           isFixed (lit 1 1) isFixed.

Definition update (deltaTime : T) (this : Vertex) : Vertex :=
  if isFixed this || pinned this then this
  else
    let velocity :=
      THREE.multiplyScalar (THREE.sub (position this) (oldPosition this))
                           DAMPING in
    mkVertex
      (THREE.add (THREE.add (position this) velocity)
         (THREE.multiplyScalar (acceleration this) (deltaTime * deltaTime)))
      (position this)
      (THREE.mk (lit 0 1) (lit 0 1) (lit 0 1))
      (isFixed this) (mass this) (pinned this).

Definition addForce (force : THREE.Vector3 T) (this : Vertex) : Vertex :=
  if negb (isFixed this) && negb (pinned this)
  then setAcceleration
         (THREE.add (acceleration this) (THREE.divideScalar force (mass this)))
         this
  else this.

Definition pin (this : Vertex) : Vertex :=
  mkVertex (position this) (oldPosition this) (acceleration this)
           (isFixed this) (mass this) true.

Definition unpin (this : Vertex) : Vertex :=
  mkVertex (position this) (oldPosition this) (acceleration this)
           (isFixed this) (mass this) false.

Definition tear (this : Constraint) : Constraint :=
  mkConstraint (v1 this) (v2 this) (restLength this) (stiffness this) false.

(** [new AdvancedVerletConstraint(v1, v2, stiffness)], for two vertices
    of the array *)
Definition newConstraint (vs : list Vertex) (i j : nat) (stiffness : T)
  : option Constraint :=
  match vs !! i, vs !! j with
  | Some a, Some b =>
      Some (mkConstraint i j (THREE.distanceTo (position a) (position b))
                         stiffness true)
  | _, _ => None
  end.

(** [satisfy()]: the constraint and the vertex array after the call.  The
    two writes go through the store one after the other, as the two
    statements of the source do.  A constraint of the source always holds
    two vertices of the array; for indices outside the array, which no
    constraint built by [newConstraint] has, the call changes nothing. *)
Definition satisfy (this : Constraint) (vs : list Vertex)
  : Constraint * list Vertex :=
  if negb (active this) then (this, vs)
  else
    match vs !! v1 this, vs !! v2 this with
    | Some a, Some b =>
        let delta := THREE.sub (position b) (position a) in
        let distance := THREE.length delta in
        if (distance > restLength this * TEAR_THRESHOLD)
           && (restLength this > lit 1 10)
        then (tear this, vs)
        else if distance === lit 0 1 then (this, vs)
        else
          let difference := (restLength this - distance) / distance in
          let offset :=
            THREE.multiplyScalar delta
              (difference * stiffness this * lit 5 10) in
          let totalMass := mass a + mass b in
          let m1 := mass b / totalMass in
          let m2 := mass a / totalMass in
          let vs1 :=
            if negb (isFixed a) && negb (pinned a)
            then alter (fun v => setPosition
                         (THREE.sub (position v)
                                    (THREE.multiplyScalar offset m1)) v)
                       (v1 this) vs
            else vs in
          let vs2 :=
            if negb (isFixed b) && negb (pinned b)
            then alter (fun v => setPosition
                         (THREE.add (position v)
                                    (THREE.multiplyScalar offset m2)) v)
                       (v2 this) vs1
            else vs1 in
          (this, vs2)
    | _, _ => (this, vs)
    end.

(** The vector [offset] of [satisfy], for the two vertices [a] and [b] of
    the constraint *)
Definition offset (this : Constraint) (a b : Vertex) : THREE.Vector3 T :=
  let delta := THREE.sub (position b) (position a) in
  let distance := THREE.length delta in
  THREE.multiplyScalar delta
    ((restLength this - distance) / distance * stiffness this * lit 5 10).

(** The vertex array after the two position updates of [satisfy], when
    both vertices are free *)
Definition relaxed (this : Constraint) (a b : Vertex) (vs : list Vertex)
  : list Vertex :=
  let totalMass := mass a + mass b in
  alter (fun v => setPosition
           (THREE.add (position v)
              (THREE.multiplyScalar (offset this a b) (mass a / totalMass))) v)
        (v2 this)
    (alter (fun v => setPosition
              (THREE.sub (position v)
                 (THREE.multiplyScalar (offset this a b)
                                       (mass b / totalMass))) v)
           (v1 this) vs).

(** The distance between the vertices [i] and [j] of the array *)
Definition gap (vs : list Vertex) (i j : nat) : option T :=
  match vs !! i, vs !! j with
  | Some a, Some b => Some (THREE.distanceTo (position a) (position b))
  | _, _ => None
  end.

(** [held vs j v]: the array has the particle [v] at [j], and [v] is fixed
    or pinned *)
Definition held (vs : list Vertex) (j : nat) (v : Vertex) : Prop :=
  vs !! j = Some v /\ free v = false.

(** [stable c]: no call of [satisfy] changes the constraint [c] *)
Definition stable (c : Constraint) : Prop :=
  forall vs, (satisfy c vs).1 = c.

(** Successive calls [this.addForce(f)], one for each force of [fs] *)
Definition addForces (fs : list (THREE.Vector3 T)) (this : Vertex) : Vertex :=
  fold_left (fun this f => addForce f this) fs this.

(** *** The frame callback ([useFrame])

    [Math.sin] and [Math.cos] are left to the host: the callback is
    parameterised by them. *)

Variables Math_sin Math_cos : T -> T.

(** The obstacle's trajectory *)
Definition moveSphere (time : T) (s : Sphere T) : Sphere T :=
  mkSphere
    (THREE.mk
       (Math_sin (time * lit 12 10) * lit 8 10
        + Math_cos (time * lit 7 10) * lit 3 10)
       (lit (-2) 10 + Math_sin (time * lit 8 10) * lit 5 10
        + Math_cos (time * lit 15 10) * lit 2 10)
       (Math_cos (time * lit 9 10) * lit 6 10
        + Math_sin (time * lit 18 10) * lit 2 10))
    (radius s)
    (sphere_position s).

(** "Enhanced wind simulation": the wind force on a vertex at [p] *)
Definition windForce (time windIntensity : T) (p : THREE.Vector3 T)
  : THREE.Vector3 T :=
  let windTime := time * lit 3 10 in
  let noiseX :=
    Math_sin (windTime * lit 21 10 + THREE.x p * lit 4 1)
    * Math_cos (windTime * lit 17 10 + THREE.z p * lit 3 1) in
  let noiseY :=
    Math_sin (windTime * lit 13 10 + THREE.y p * lit 5 1)
    * Math_cos (windTime * lit 24 10 + THREE.x p * lit 2 1) in
  let noiseZ :=
    Math_cos (windTime * lit 18 10 + THREE.z p * lit 25 10)
    * Math_sin (windTime * lit 31 10 + THREE.y p * lit 15 10) in
  THREE.mk
    (noiseX * WIND_STRENGTH * windIntensity)
    (noiseY * WIND_STRENGTH * windIntensity * lit 3 10)
    (noiseZ * WIND_STRENGTH * windIntensity * lit 8 10).

(** "Sphere collision with velocity-based response".  [toSphere] is
    normalised and scaled in place, so [correction] is that same vector,
    and the later [toSphere.normalize()] normalises the correction. *)
Definition sphereCollision (s : Sphere T) (vertex : Vertex) : Vertex :=
  let toSphere := THREE.sub (position vertex) (sphere_position s) in
  let distance := THREE.length toSphere in
  let minDistance := radius s + lit 8 100 in
  if (distance < minDistance) && (distance > lit 0 1) then
    let correction :=
      THREE.multiplyScalar (THREE.normalize toSphere)
                           (minDistance - distance) in
    let vertex := setPosition (THREE.add (position vertex) correction) vertex in
    let velocity := THREE.sub (position vertex) (oldPosition vertex) in
    let normal := THREE.normalize correction in
    let velocityAlongNormal := THREE.dot velocity normal in
    if velocityAlongNormal < lit 0 1 then
      let bounce :=
        THREE.multiplyScalar normal (velocityAlongNormal * lit (-15) 10) in
      setOldPosition (THREE.sub (oldPosition vertex) bounce) vertex
    else vertex
  else vertex.

(** One turn of the self-collision loop: vertex [i] against [other = j] *)
Definition selfCollide (i j : nat) (vs : list Vertex) : list Vertex :=
  match vs !! i, vs !! j with
  | Some vertex, Some other =>
      let distance := THREE.distanceTo (position vertex) (position other) in
      if (distance < lit 1 10) && (distance > lit 0 1) then
        let separation :=
          THREE.multiplyScalar
            (THREE.normalize (THREE.sub (position vertex) (position other)))
            ((lit 1 10 - distance) * lit 5 10) in
        let vs :=
          alter (fun v => setPosition (THREE.add (position v) separation) v)
                i vs in
        alter (fun o => setPosition (THREE.sub (position o) separation) o)
              j vs
      else vs
  | _, _ => vs
  end.

(** "Simple self-collision":
    [for (let j = i + 10; j < vertices.current.length; j += 15)] *)
Definition selfCollision (i : nat) (vs : list Vertex) : list Vertex :=
  fold_left (fun vs j => selfCollide i j vs)
            (strided (i + 10)%nat 15 (List.length vs)) vs.

(** "Apply forces": the body of [vertices.current.forEach((vertex, i) => ...)] *)
Definition applyForces (props : Props T) (time : T) (s : Sphere T)
    (frameCount : nat) (i : nat) (vs : list Vertex) : list Vertex :=
  match vs !! i with
  | None => vs
  | Some vertex =>
      if isFixed vertex || pinned vertex then vs
      else
        let vertex :=
          addForce (THREE.mk (lit 0 1) GRAVITY (lit 0 1)) vertex in
        let vertex :=
          addForce (windForce time (windIntensity props) (position vertex))
                   vertex in
        let vertex :=
          if showSphere props then sphereCollision s vertex else vertex in
        let vs := <[i := vertex]> vs in
        if (frameCount mod 3 =? 0)%nat then selfCollision i vs else vs
  end.

(** One relaxation pass:
    [constraints.current.forEach(c => { if (c.active) c.satisfy() })] *)
Definition relax (k : nat) (cv : list Constraint * list Vertex)
  : list Constraint * list Vertex :=
  match cv.1 !! k with
  | None => cv
  | Some constraint =>
      if active constraint then
        let r := satisfy constraint cv.2 in
        (<[k := r.1]> cv.1, r.2)
      else cv
  end.

Definition relaxAll (cv : list Constraint * list Vertex)
  : list Constraint * list Vertex :=
  forEach (List.length cv.1) relax cv.

Definition iterations : nat := 5.

(** "Tear constraints if enabled": the body of the [forEach] *)
Definition tearCheck (vs : list Vertex) (constraint : Constraint)
  : Constraint :=
  if negb (active constraint) then constraint
  else
    match vs !! v1 constraint, vs !! v2 constraint with
    | Some a, Some b =>
        let distance := THREE.distanceTo (position a) (position b) in
        if distance > restLength constraint * lit 25 10
        then tear constraint
        else constraint
    | _, _ => constraint
    end.

(** The callback given to [useFrame].  The copy of the positions into the
    geometry buffer at its end reads the state and changes none of it. *)
Definition useFrame (props : Props T) (frame : Frame T) (st : State T)
  : State T :=
  if negb (meshMounted frame) then st
  else
    let frameCount := S (frameCount st) in
    let time := elapsedTime frame in
    let sphere := moveSphere time (sphere st) in
    let vs :=
      forEach (List.length (vertices st))
              (applyForces props time sphere frameCount) (vertices st) in
    let vs := update (deltaTime frame) <$> vs in
    let cv := Nat.iter iterations relaxAll (constraints st, vs) in
    let cs :=
      if enableTearing props && (frameCount mod 60 =? 0)%nat
      then tearCheck cv.2 <$> cv.1
      else cv.1 in
    mkState cv.2 cs sphere frameCount.

(** A run of the render loop: one call of the callback per frame, each with
    the properties the component has at that frame. *)
Definition frames (inputs : list (Props T * Frame T)) (st : State T)
  : State T :=
  fold_left (fun st input => useFrame input.1 input.2 st) inputs st.

(** The tear check's test on a constraint, at the vertices [vs] *)
Definition overstretched (vs : list Vertex) (constraint : Constraint) : Prop :=
  exists a b,
    vs !! v1 constraint = Some a /\ vs !! v2 constraint = Some b /\
    (THREE.distanceTo (position a) (position b)
       > restLength constraint * lit 25 10) = true.

End Engine.

(** *** Initialisation ([useMemo]) and the geometry buffer *)

Section Cloth.
Context {T : Type} `{Number T}.
Local Open Scope js_scope.

Local Abbreviation Vertex := (AdvancedVerletVertex T).
Local Abbreviation Constraint := (AdvancedVerletConstraint T).

Definition CLOTH_WIDTH : T := lit 25 10.
Definition CLOTH_HEIGHT : T := lit 25 10.
Definition CLOTH_SEGMENTS_X : nat := 30.
Definition CLOTH_SEGMENTS_Y : nat := 30.

Definition setMass (m : T) (this : Vertex) : Vertex :=
  mkVertex (position this) (oldPosition this) (acceleration this)
           (isFixed this) m (pinned this).

(** The vertex of column [x] and row [y]; [random] is what [Math.random()]
    returns for it. *)
Definition gridVertex (segX segY : nat) (random : T) (x y : nat) : Vertex :=
  let posX := (num x / num segX - lit 5 10) * CLOTH_WIDTH in
  let posY := lit 0 1 in
  let posZ := (num y / num segY) * CLOTH_HEIGHT in
  let isFixed :=
    (y =? 0)%nat && ((x =? 0)%nat || (x =? segX)%nat || (x mod 6 =? 0)%nat) in
  let vertex := newVertex posX posY posZ isFixed in
  setMass (lit 8 10 + random * lit 4 10) vertex.

(** "Create vertices with varying mass"; [random k] is the result of the
    call of [Math.random()] that [k] calls precede. *)
Definition initVerticesWith (segX segY : nat) (random : nat -> T)
  : list Vertex :=
  buildGrid segX segY (fun k x y => gridVertex segX segY (random k) x y).

Definition initVertices (random : nat -> T) : list Vertex :=
  initVerticesWith CLOTH_SEGMENTS_X CLOTH_SEGMENTS_Y random.

(** [constraints.current.push(new AdvancedVerletConstraint(vertices.current[i],
    vertices.current[j], stiffness))].  The constructor reads the positions
    of its two vertices: with an index outside the array it throws, and the
    initialisation stops there ([None]). *)
Definition push (vs : list Vertex) (i j : nat) (stiffness : T)
    (cs : option (list Constraint)) : option (list Constraint) :=
  match cs with
  | Some l =>
      match newConstraint vs i j stiffness with
      | Some c => Some (l ++ [c])
      | None => None
      end
  | None => None
  end.

(** "Create constraints with different stiffness": the body of the two
    nested loops, for column [x] and row [y] *)
Definition linksAt (vs : list Vertex) (segX segY x y : nat)
    (cs : option (list Constraint)) : option (list Constraint) :=
  let index := (y * (segX + 1) + x)%nat in
  let cs :=
    if (x <? segX)%nat
    then push vs index (index + 1)%nat STIFFNESS cs else cs in
  let cs :=
    if (y <? segY)%nat
    then push vs index (index + segX + 1)%nat STIFFNESS cs else cs in
  let cs :=
    if (x <? segX)%nat && (y <? segY)%nat
    then push vs (index + 1)%nat (index + segX + 1)%nat
              (STIFFNESS * lit 8 10)
              (push vs index (index + segX + 2)%nat
                    (STIFFNESS * lit 8 10) cs)
    else cs in
  let cs :=
    if (x <? segX - 1)%nat
    then push vs index (index + 2)%nat (STIFFNESS * lit 3 10) cs else cs in
  if (y <? segY - 1)%nat
  then push vs index (index + (segX + 1) * 2)%nat (STIFFNESS * lit 3 10) cs
  else cs.

Definition initConstraintsWith (segX segY : nat) (vs : list Vertex)
  : option (list Constraint) :=
  forEach (S segY)
    (fun y cs => forEach (S segX) (fun x cs => linksAt vs segX segY x y cs) cs)
    (Some []).

Definition initConstraints (vs : list Vertex) : option (list Constraint) :=
  initConstraintsWith CLOTH_SEGMENTS_X CLOTH_SEGMENTS_Y vs.

Definition indices : list nat :=
  faceIndices CLOTH_SEGMENTS_X CLOTH_SEGMENTS_Y.

(** [new Float32Array(n)] holds [n] zeros; what is stored in it is rounded
    to single precision, here by [Math_fround], and a write outside the
    array is ignored. *)
Variable Math_fround : T -> T.

(** "Update geometry positions": the [forEach] that copies the positions of
    the vertices into the position attribute of the mesh *)
Definition writePositions (vs : list Vertex) (positions : list T) : list T :=
  forEach (List.length vs)
    (fun i positions =>
       match vs !! i with
       | Some vertex =>
           let positions :=
             <[(i * 3)%nat := Math_fround (THREE.x (position vertex))]>
               positions in
           let positions :=
             <[(i * 3 + 1)%nat := Math_fround (THREE.y (position vertex))]>
               positions in
           <[(i * 3 + 2)%nat := Math_fround (THREE.z (position vertex))]>
             positions
       | None => positions
       end)
    positions.

(** "Create geometry": the buffer built by the initialisation *)
Definition initPositions (vs : list Vertex) : list T :=
  writePositions vs (replicate (List.length vs * 3) (lit 0 1)).

(** the end of the frame callback:
    [if (frameCount.current % 1 === 0) { ... }] around the copy *)
Definition syncPositions (frameCount : nat) (vs : list Vertex)
    (positions : list T) : list T :=
  if (frameCount mod 1 =? 0)%nat then writePositions vs positions
  else positions.

(** The state the component starts from *)
Definition initState (random : nat -> T) : option (State T) :=
  let vs := initVertices random in
  match initConstraints vs with
  | Some cs =>
      Some (mkState vs cs
              (mkSphere (THREE.mk (lit 0 1) (lit 0 1) (lit 0 1)) (lit 3 10)
                        (THREE.mk (lit 0 1) (lit 0 1) (lit 0 1)))
              0)
  | None => None
  end.

End Cloth.
End Advanced.

(** ** ClothSimulation.jsx *)

Module Basic.

Section Constants.
Context {T : Type} `{Number T}.

Definition DAMPING : T := lit 99 100.
Definition STIFFNESS : T := lit 4 10.
Definition GRAVITY : T := lit (-98) 10000.
Definition WIND_STRENGTH : T := lit 3 1000.

End Constants.

(** *** class VerletVertex *)
Record VerletVertex (T : Type) := mkVertex {
  position : THREE.Vector3 T;
  oldPosition : THREE.Vector3 T;
  acceleration : THREE.Vector3 T;
  isFixed : bool
}.
Arguments mkVertex {T} _ _ _ _.
Arguments position {T} _.
Arguments oldPosition {T} _.
Arguments acceleration {T} _.
Arguments isFixed {T} _.

(** *** class VerletConstraint *)
Record VerletConstraint (T : Type) := mkConstraint {
  v1 : nat;
  v2 : nat;
  restLength : T
}.
Arguments mkConstraint {T} _ _ _.
Arguments v1 {T} _.
Arguments v2 {T} _.
Arguments restLength {T} _.

Record Sphere (T : Type) := mkSphere {
  sphere_position : THREE.Vector3 T;
  radius : T
}.
Arguments mkSphere {T} _ _.
Arguments sphere_position {T} _.
Arguments radius {T} _.

Record Props (T : Type) := mkProps {
  showSphere : bool;
  windIntensity : T
}.
Arguments mkProps {T} _ _.
Arguments showSphere {T} _.
Arguments windIntensity {T} _.

Record Frame (T : Type) := mkFrame {
  meshMounted : bool;
  elapsedTime : T;
  deltaTime : T
}.
Arguments mkFrame {T} _ _ _.
Arguments meshMounted {T} _.
Arguments elapsedTime {T} _.
Arguments deltaTime {T} _.

Record State (T : Type) := mkState {
  vertices : list (VerletVertex T);
  constraints : list (VerletConstraint T);
  sphere : Sphere T;
  frameCount : nat
}.
Arguments mkState {T} _ _ _ _.
Arguments vertices {T} _.
Arguments constraints {T} _.
Arguments sphere {T} _.
Arguments frameCount {T} _.

Section Engine.
Context {T : Type} `{Number T}.
Local Open Scope js_scope.

Local Abbreviation Vertex := (VerletVertex T).
Local Abbreviation Constraint := (VerletConstraint T).

Definition setPosition (p : THREE.Vector3 T) (this : Vertex) : Vertex :=
  mkVertex p (oldPosition this) (acceleration this) (isFixed this).

Definition newVertex (x y z : T) (isFixed : bool) : Vertex :=
  mkVertex (THREE.mk x y z) (THREE.mk x y z)
           (THREE.mk (lit 0 1) (lit 0 1) (lit 0 1)) isFixed.

Definition update (deltaTime : T) (this : Vertex) : Vertex :=
  if isFixed this then this
  else
    let velocity :=
      THREE.multiplyScalar (THREE.sub (position this) (oldPosition this))
                           DAMPING in
    mkVertex
      (THREE.add (THREE.add (position this) velocity)
         (THREE.multiplyScalar (acceleration this) (deltaTime * deltaTime)))
      (position this)
      (THREE.mk (lit 0 1) (lit 0 1) (lit 0 1))
      (isFixed this).

Definition addForce (force : THREE.Vector3 T) (this : Vertex) : Vertex :=
  mkVertex (position this) (oldPosition this)
           (THREE.add (acceleration this) force) (isFixed this).

Definition addForces (fs : list (THREE.Vector3 T)) (this : Vertex) : Vertex :=
  fold_left (fun this f => addForce f this) fs this.

(** [held vs j v]: the array has the particle [v] at [j], and [v] is fixed *)
Definition held (vs : list Vertex) (j : nat) (v : Vertex) : Prop :=
  vs !! j = Some v /\ isFixed v = true.

Definition newConstraint (vs : list Vertex) (i j : nat) : option Constraint :=
  match vs !! i, vs !! j with
  | Some a, Some b =>
      Some (mkConstraint i j (THREE.distanceTo (position a) (position b)))
  | _, _ => None
  end.

(** [satisfy()] reads the file's constant [STIFFNESS]; [satisfyWith] is the
    same body with the constant as an argument. *)
Definition satisfyWith (STIFFNESS : T) (this : Constraint) (vs : list Vertex)
  : list Vertex :=
  match vs !! v1 this, vs !! v2 this with
  | Some a, Some b =>
      let delta := THREE.sub (position b) (position a) in
      let distance := THREE.length delta in
      if distance === lit 0 1 then vs
      else
        let difference := (restLength this - distance) / distance in
        let offset :=
          THREE.multiplyScalar delta (difference * STIFFNESS * lit 5 10) in
        let vs1 :=
          if negb (isFixed a)
          then alter (fun v => setPosition (THREE.sub (position v) offset) v)
                     (v1 this) vs
          else vs in
        if negb (isFixed b)
        then alter (fun v => setPosition (THREE.add (position v) offset) v)
                   (v2 this) vs1
        else vs1
  | _, _ => vs
  end.

Definition satisfy (this : Constraint) (vs : list Vertex) : list Vertex :=
  satisfyWith STIFFNESS this vs.

(** The distance between the vertices [i] and [j] of the array *)
Definition gap (vs : list Vertex) (i j : nat) : option T :=
  match vs !! i, vs !! j with
  | Some a, Some b => Some (THREE.distanceTo (position a) (position b))
  | _, _ => None
  end.

Variables Math_sin Math_cos : T -> T.

Definition moveSphere (time : T) (s : Sphere T) : Sphere T :=
  mkSphere
    (THREE.mk
       (Math_sin (time * lit 18 10) * lit 6 10)
       (lit (-3) 10 + Math_sin (time * lit 7 10) * lit 4 10)
       (Math_cos (time * lit 12 10) * lit 4 10))
    (radius s).

(** "Wind (more complex noise-like effect)" *)
Definition windForce (time windIntensity : T) (p : THREE.Vector3 T)
  : THREE.Vector3 T :=
  let windTime := time * lit 5 10 in
  let windX :=
    (Math_sin (windTime * lit 2 1 + THREE.x p * lit 3 1)
     + Math_sin (windTime * lit 32 10 + THREE.z p * lit 2 1))
    * WIND_STRENGTH * windIntensity in
  let windY :=
    Math_sin (windTime * lit 15 10 + THREE.x p * lit 4 1 + THREE.z p * lit 3 1)
    * WIND_STRENGTH * lit 3 10 * windIntensity in
  let windZ :=
    (Math_cos (windTime * lit 18 10 + THREE.x p * lit 25 10)
     + Math_cos (windTime * lit 23 10 + THREE.z p * lit 18 10))
    * WIND_STRENGTH * lit 7 10 * windIntensity in
  THREE.mk windX windY windZ.

(** "Sphere collision" *)
Definition sphereCollision (s : Sphere T) (vertex : Vertex) : Vertex :=
  let toSphere := THREE.sub (position vertex) (sphere_position s) in
  let distance := THREE.length toSphere in
  if distance < radius s + lit 5 100 then
    let pushBack :=
      THREE.multiplyScalar (THREE.normalize toSphere)
                           ((radius s + lit 5 100) - distance) in
    setPosition (THREE.add (position vertex) pushBack) vertex
  else vertex.

(** "Apply forces": the body of the [forEach] over the vertices *)
Definition applyForces (props : Props T) (time : T) (s : Sphere T)
    (vertex : Vertex) : Vertex :=
  if isFixed vertex then vertex
  else
    let vertex := addForce (THREE.mk (lit 0 1) GRAVITY (lit 0 1)) vertex in
    let vertex :=
      addForce (windForce time (windIntensity props) (position vertex))
               vertex in
    if showSphere props then sphereCollision s vertex else vertex.

Definition relaxAll (cs : list Constraint) (vs : list Vertex) : list Vertex :=
  fold_left (fun vs constraint => satisfy constraint vs) cs vs.

Definition iterations : nat := 4.

(** The callback given to [useFrame] *)
Definition useFrame (props : Props T) (frame : Frame T) (st : State T)
  : State T :=
  if negb (meshMounted frame) then st
  else
    let time := elapsedTime frame in
    let sphere := moveSphere time (sphere st) in
    let vs := applyForces props time sphere <$> vertices st in
    let vs := update (deltaTime frame) <$> vs in
    let vs := Nat.iter iterations (relaxAll (constraints st)) vs in
    mkState vs (constraints st) sphere (S (frameCount st)).

End Engine.

(** *** Initialisation ([useMemo]) and the geometry buffer *)

Section Cloth.
Context {T : Type} `{Number T}.
Local Open Scope js_scope.

Local Abbreviation Vertex := (VerletVertex T).
Local Abbreviation Constraint := (VerletConstraint T).

Definition CLOTH_WIDTH : T := lit 2 1.
Definition CLOTH_HEIGHT : T := lit 2 1.
Definition CLOTH_SEGMENTS_X : nat := 25.
Definition CLOTH_SEGMENTS_Y : nat := 25.

Definition gridVertex (segX segY : nat) (x y : nat) : Vertex :=
  let posX := (num x / num segX - lit 5 10) * CLOTH_WIDTH in
  let posY := lit 0 1 in
  let posZ := (num y / num segY) * CLOTH_HEIGHT in
  let isFixed := (y =? 0)%nat && (x mod 5 =? 0)%nat in
  newVertex posX posY posZ isFixed.

Definition initVerticesWith (segX segY : nat) : list Vertex :=
  buildGrid segX segY (fun _ x y => gridVertex segX segY x y).

Definition initVertices : list Vertex :=
  initVerticesWith CLOTH_SEGMENTS_X CLOTH_SEGMENTS_Y.

(** [constraints.current.push(new VerletConstraint(vertices.current[i],
    vertices.current[j]))]; [None] when the constructor throws *)
Definition push (vs : list Vertex) (i j : nat)
    (cs : option (list Constraint)) : option (list Constraint) :=
  match cs with
  | Some l =>
      match newConstraint vs i j with
      | Some c => Some (l ++ [c])
      | None => None
      end
  | None => None
  end.

(** "Create constraints (springs)": the body of the two nested loops *)
Definition linksAt (vs : list Vertex) (segX segY x y : nat)
    (cs : option (list Constraint)) : option (list Constraint) :=
  let index := (y * (segX + 1) + x)%nat in
  let cs :=
    if (x <? segX)%nat then push vs index (index + 1)%nat cs else cs in
  let cs :=
    if (y <? segY)%nat then push vs index (index + segX + 1)%nat cs else cs in
  let cs :=
    if (x <? segX)%nat && (y <? segY)%nat
    then push vs (index + 1)%nat (index + segX + 1)%nat
              (push vs index (index + segX + 2)%nat cs)
    else cs in
  let cs :=
    if (x <? segX - 1)%nat then push vs index (index + 2)%nat cs else cs in
  if (y <? segY - 1)%nat
  then push vs index (index + (segX + 1) * 2)%nat cs
  else cs.

Definition initConstraintsWith (segX segY : nat) (vs : list Vertex)
  : option (list Constraint) :=
  forEach (S segY)
    (fun y cs => forEach (S segX) (fun x cs => linksAt vs segX segY x y cs) cs)
    (Some []).

Definition initConstraints (vs : list Vertex) : option (list Constraint) :=
  initConstraintsWith CLOTH_SEGMENTS_X CLOTH_SEGMENTS_Y vs.

Definition indices : list nat :=
  faceIndices CLOTH_SEGMENTS_X CLOTH_SEGMENTS_Y.

Variable Math_fround : T -> T.

(** "Update geometry positions" *)
Definition writePositions (vs : list Vertex) (positions : list T) : list T :=
  forEach (List.length vs)
    (fun i positions =>
       match vs !! i with
       | Some vertex =>
           let positions :=
             <[(i * 3)%nat := Math_fround (THREE.x (position vertex))]>
               positions in
           let positions :=
             <[(i * 3 + 1)%nat := Math_fround (THREE.y (position vertex))]>
               positions in
           <[(i * 3 + 2)%nat := Math_fround (THREE.z (position vertex))]>
             positions
       | None => positions
       end)
    positions.

Definition initPositions (vs : list Vertex) : list T :=
  writePositions vs (replicate (List.length vs * 3) (lit 0 1)).

(** the end of the frame callback:
    [if (frameCount.current % 1 === 0) { ... }] around the copy *)
Definition syncPositions (frameCount : nat) (vs : list Vertex)
    (positions : list T) : list T :=
  if (frameCount mod 1 =? 0)%nat then writePositions vs positions
  else positions.

Definition initState : option (State T) :=
  let vs := initVertices in
  match initConstraints vs with
  | Some cs =>
      Some (mkState vs cs
              (mkSphere (THREE.mk (lit 0 1) (lit 0 1) (lit 0 1)) (lit 25 100))
              0)
  | None => None
  end.

(** A run of the render loop *)
Definition frames (Math_sin Math_cos : T -> T)
    (inputs : list (Props T * Frame T)) (st : State T) : State T :=
  fold_left (fun st input => useFrame Math_sin Math_cos input.1 input.2 st)
            inputs st.

End Cloth.
End Basic.

(** ** Scenarios

    Concrete particles, constraints and states, for any interpretation of
    numbers. *)

Module Scenario.
Section Scenario.
Context {T : Type} `{Number T}.

Definition origin : THREE.Vector3 T := THREE.mk (lit 0 1) (lit 0 1) (lit 0 1).

(** a free particle of unit mass at rest at [(x, 0, 0)] *)
Definition particle (x : T) : Advanced.AdvancedVerletVertex T :=
  Advanced.newVertex x (lit 0 1) (lit 0 1) false.

Definition restingSphere : Advanced.Sphere T :=
  Advanced.mkSphere origin (lit 3 10) origin.

(** A short link, as the structural links of the 30 x 30 grid are
    (2.5 / 30 < 0.1), already torn. *)
Definition tornLink : Advanced.AdvancedVerletConstraint T :=
  Advanced.mkConstraint 0 1 (lit 5 100) Advanced.STIFFNESS false.

Definition shortLink : Advanced.AdvancedVerletConstraint T :=
  Advanced.mkConstraint 0 1 (lit 5 100) Advanced.STIFFNESS true.

Definition shortPair : list (Advanced.AdvancedVerletVertex T) :=
  [particle (lit 0 1); particle (lit 5 100)].

(** States whose next frame is the 60th, when the periodic check runs *)
Definition tornState : Advanced.State T :=
  Advanced.mkState shortPair [tornLink] restingSphere 59.

Definition shortState : Advanced.State T :=
  Advanced.mkState shortPair [shortLink] restingSphere 59.

(** the short link pulled to four times its rest length *)
Definition overstretchedPair : list (Advanced.AdvancedVerletVertex T) :=
  [particle (lit 0 1); particle (lit 2 10)].

Definition tearingOn : Advanced.Props T :=
  Advanced.mkProps true (lit 1 1) true.

Definition tearingOff : Advanced.Props T :=
  Advanced.mkProps false (lit 0 1) false.

(** The scenario of two free particles of equal mass, [2.0] apart, joined
    by a constraint of rest length [1.0] and stiffness [0.5] *)
Definition unitLink : Advanced.AdvancedVerletConstraint T :=
  Advanced.mkConstraint 0 1 (lit 1 1) (lit 5 10) true.



(** a free particle of mass [m] at rest at [(x, 0, 0)] *)
Definition massive (m x : T) : Advanced.AdvancedVerletVertex T :=
  Advanced.mkVertex (THREE.mk x (lit 0 1) (lit 0 1))
                    (THREE.mk x (lit 0 1) (lit 0 1)) origin false m false.

Definition unequalPair : list (Advanced.AdvancedVerletVertex T) :=
  [massive (lit 1 1) (lit 0 1); massive (lit 3 1) (lit 5 10)].

Definition basicParticle (x : T) : Basic.VerletVertex T :=
  Basic.newVertex x (lit 0 1) (lit 0 1) false.

Definition basicUnitLink : Basic.VerletConstraint T :=
  Basic.mkConstraint 0 1 (lit 1 1).

Definition basicStretchedPair : list (Basic.VerletVertex T) :=
  [basicParticle (lit 0 1); basicParticle (lit 2 1)].

(** The obstacle of each engine, at the origin *)
Definition basicSphere : Basic.Sphere T :=
  Basic.mkSphere origin (lit 25 100).

(** Two free particles of unit mass at rest, one unit apart, and the
    constraint the constructor builds between them *)
Definition restingPair : list (Advanced.AdvancedVerletVertex T) :=
  [particle (lit 0 1); particle (lit 1 1)].

Definition restLink : Advanced.AdvancedVerletConstraint T :=
  Advanced.mkConstraint 0 1 (lit 1 1) Advanced.STIFFNESS true.

Definition restState : Advanced.State T :=
  Advanced.mkState restingPair [restLink] restingSphere 0.

(** A free particle at [(0.0625, 0, 0)], nine fixed particles far away, and
    a fixed particle at the origin, at position 10 of the array; no
    constraint.  The next frame is the third. *)
Definition anchor : Advanced.AdvancedVerletVertex T :=
  Advanced.newVertex (lit 0 1) (lit 0 1) (lit 0 1) true.

Definition farAnchor : Advanced.AdvancedVerletVertex T :=
  Advanced.newVertex (lit 100 1) (lit 0 1) (lit 0 1) true.

Definition crowded : list (Advanced.AdvancedVerletVertex T) :=
  particle (lit 625 10000) :: replicate 9 farAnchor ++ [anchor].

Definition crowdedState : Advanced.State T :=
  Advanced.mkState crowded [] restingSphere 2.

(** a frame at 60 frames per second *)
Definition frameAt (time : T) : Advanced.Frame T :=
  Advanced.mkFrame true time (lit 16 1000).

End Scenario.
End Scenario.

(** ** index.jsx and Scene.jsx

    [App] keeps the settings of the control panel and a reset counter;
    [Scene] picks the cloth component and gives it the counter as its
    [key].  A functional update [setState(prev => ...)] is the function it
    is given, applied to the state. *)

Module App.

Record ClothSettings (T : Type) := mkSettings {
  windIntensity : T;
  showSphere : bool;
  color : string;
  clothType : string;
  enableTearing : bool
}.
Arguments mkSettings {T} _ _ _ _ _.
Arguments windIntensity {T} _.
Arguments showSphere {T} _.
Arguments color {T} _.
Arguments clothType {T} _.
Arguments enableTearing {T} _.

(** the two pieces of state of [App] *)
Record State (T : Type) := mkState {
  clothSettings : ClothSettings T;
  resetKey : nat
}.
Arguments mkState {T} _ _.
Arguments clothSettings {T} _.
Arguments resetKey {T} _.

(** what the control panel can ask for *)
Inductive Event (T : Type) :=
| WindChange (value : T)
| SphereToggle (value : bool)
| ColorChange (value : string)
| ClothTypeChange (value : string)
| TearingToggle (value : bool)
| Reset.
Arguments WindChange {T} _.
Arguments SphereToggle {T} _.
Arguments ColorChange {T} _.
Arguments ClothTypeChange {T} _.
Arguments TearingToggle {T} _.
Arguments Reset {T}.

Inductive ClothComponent := ClothSimulation | AdvancedClothSimulation.

Section App.
Context {T : Type} `{Number T}.

Definition initial : State T :=
  mkState (mkSettings (lit 1 1) true "#4080ff" "basic" false) 0.

Definition handleWindChange (value : T) (st : State T) : State T :=
  let prev := clothSettings st in
  mkState (mkSettings value (showSphere prev) (color prev) (clothType prev)
                      (enableTearing prev))
          (resetKey st).

Definition handleSphereToggle (value : bool) (st : State T) : State T :=
  let prev := clothSettings st in
  mkState (mkSettings (windIntensity prev) value (color prev) (clothType prev)
                      (enableTearing prev))
          (resetKey st).

Definition handleColorChange (value : string) (st : State T) : State T :=
  let prev := clothSettings st in
  mkState (mkSettings (windIntensity prev) (showSphere prev) value
                      (clothType prev) (enableTearing prev))
          (resetKey st).

Definition handleClothTypeChange (value : string) (st : State T) : State T :=
  let prev := clothSettings st in
  mkState (mkSettings (windIntensity prev) (showSphere prev) (color prev) value
                      (enableTearing prev))
          (resetKey st + 1).

Definition handleTearingToggle (value : bool) (st : State T) : State T :=
  let prev := clothSettings st in
  mkState (mkSettings (windIntensity prev) (showSphere prev) (color prev)
                      (clothType prev) value)
          (resetKey st).

Definition handleReset (st : State T) : State T :=
  let prev := clothSettings st in
  mkState (mkSettings (lit 1 1) true "#4080ff" (clothType prev)
                      (enableTearing prev))
          (resetKey st + 1).

Definition handle (e : Event T) (st : State T) : State T :=
  match e with
  | WindChange value => handleWindChange value st
  | SphereToggle value => handleSphereToggle value st
  | ColorChange value => handleColorChange value st
  | ClothTypeChange value => handleClothTypeChange value st
  | TearingToggle value => handleTearingToggle value st
  | Reset => handleReset st
  end.

(** the state after a sequence of requests *)
Definition run (events : list (Event T)) (st : State T) : State T :=
  fold_left (fun st e => handle e st) events st.

(** [Scene]: the cloth component it renders, and the [key] it gives it *)
Definition Scene (st : State T) : ClothComponent * nat :=
  (if String.eqb (clothType (clothSettings st)) "advanced"
   then AdvancedClothSimulation else ClothSimulation,
   resetKey st).

(** the requests that give the cloth a new key *)
Definition remounts (e : Event T) : bool :=
  match e with
  | ClothTypeChange _ | Reset => true
  | _ => false
  end.

Definition isReset (e : Event T) : bool :=
  match e with
  | Reset => true
  | _ => false
  end.

Definition withoutResets (events : list (Event T)) : list (Event T) :=
  List.filter (fun e => negb (isReset e)) events.

End App.
End App.

(** ** Predicates

    The vocabulary of the properties below. *)

(** [filled w cell n arr]: [arr] holds the first [n] rows of [w] cells *)
Definition filled {A : Type} (w : nat) (cell : nat -> nat -> nat -> A)
    (n : nat) (arr : list A) : Prop :=
  List.length arr = n * w
  /\ forall x y, x < w -> y < n ->
       arr !! (y * w + x) = Some (cell (y * w + x) x y).

(** one coordinate of a vector, by its offset in the position buffer *)
Definition component {T : Type} (r : nat) (v : THREE.Vector3 T) : T :=
  match r with
  | 0 => THREE.x v
  | 1 => THREE.y v
  | _ => THREE.z v
  end.

Section AdvancedPredicates.
Context {T : Type} `{Number T}.
Import Advanced.
Local Open Scope js_scope.

(** a link between two particles of the array, active, whose rest length
    is the distance between them *)
Definition wellFormed (vs : list (AdvancedVerletVertex T))
    (c : AdvancedVerletConstraint T) : Prop :=
  (v1 c < v2 c < List.length vs)%nat
  /\ active c = true
  /\ gap vs (v1 c) (v2 c) = Some (restLength c).

(** the initialisation did not throw, and built well-formed links *)
Definition built (vs : list (AdvancedVerletVertex T))
    (cs : option (list (AdvancedVerletConstraint T))) : Prop :=
  exists l, cs = Some l /\ Forall (wellFormed vs) l.

(** the links that the loop body adds for column [x] and row [y] *)
Definition cellLink (vs : list (AdvancedVerletVertex T)) (segX segY x y : nat)
    (c : AdvancedVerletConstraint T) : Prop :=
  let index := (y * (segX + 1) + x)%nat in
  ((x < segX)%nat /\ newConstraint vs index (index + 1)%nat STIFFNESS = Some c)
  \/ ((y < segY)%nat
      /\ newConstraint vs index (index + segX + 1)%nat STIFFNESS = Some c)
  \/ ((x < segX)%nat /\ (y < segY)%nat
      /\ newConstraint vs index (index + segX + 2)%nat (STIFFNESS * lit 8 10)
         = Some c)
  \/ ((x < segX)%nat /\ (y < segY)%nat
      /\ newConstraint vs (index + 1)%nat (index + segX + 1)%nat
                       (STIFFNESS * lit 8 10) = Some c)
  \/ ((x < segX - 1)%nat
      /\ newConstraint vs index (index + 2)%nat (STIFFNESS * lit 3 10) = Some c)
  \/ ((y < segY - 1)%nat
      /\ newConstraint vs index (index + (segX + 1) * 2)%nat
                       (STIFFNESS * lit 3 10) = Some c).

Definition gridLink (vs : list (AdvancedVerletVertex T)) (segX segY : nat)
    (c : AdvancedVerletConstraint T) : Prop :=
  exists x y, (x <= segX)%nat /\ (y <= segY)%nat /\ cellLink vs segX segY x y c.

(** same particle up to position, old position and accumulated acceleration *)
Definition sameParticle (v v' : AdvancedVerletVertex T) : Prop :=
  isFixed v' = isFixed v /\ pinned v' = pinned v /\ mass v' = mass v.

Definition sameParticles (vs vs' : list (AdvancedVerletVertex T)) : Prop :=
  Forall2 sameParticle vs vs'.

(** same constraint, or the same constraint torn *)
Definition sameLink (c c' : AdvancedVerletConstraint T) : Prop :=
  c' = c \/ c' = tear c.

Definition sameLinks (cs cs' : list (AdvancedVerletConstraint T)) : Prop :=
  Forall2 sameLink cs cs'.

Definition sameCloth
    (cv cv' : list (AdvancedVerletConstraint T) * list (AdvancedVerletVertex T))
  : Prop :=
  sameLinks cv.1 cv'.1 /\ sameParticles cv.2 cv'.2.

(** no free particle of the array has anything accumulated *)
Definition settled (vs : list (AdvancedVerletVertex T)) : Prop :=
  forall j v, vs !! j = Some v -> free v = true ->
    acceleration v = THREE.mk (lit 0 1) (lit 0 1) (lit 0 1).

(** the frames of a run at which the mesh is mounted *)
Definition mounted (inputs : list (Props T * Frame T))
  : list (Props T * Frame T) :=
  filter (fun input => meshMounted input.2 = true) inputs.

(** [i] is a particle whose self-collision loop reaches [j] *)
Definition reaches (i j : nat) : Prop :=
  (i + 10 <= j)%nat /\ ((j - (i + 10)) mod 15 = 0)%nat.

(** no free particle of the array reaches [j] *)
Definition sheltered (vs : list (AdvancedVerletVertex T)) (j : nat) : Prop :=
  forall i a, reaches i j -> vs !! i = Some a -> free a = false.

End AdvancedPredicates.

Section BasicPredicates.
Context {T : Type} `{Number T}.

Definition basicWellFormed (vs : list (Basic.VerletVertex T))
    (c : Basic.VerletConstraint T) : Prop :=
  Basic.v1 c < Basic.v2 c < List.length vs
  /\ Basic.gap vs (Basic.v1 c) (Basic.v2 c) = Some (Basic.restLength c).

Definition basicBuilt (vs : list (Basic.VerletVertex T))
    (cs : option (list (Basic.VerletConstraint T))) : Prop :=
  exists l, cs = Some l /\ Forall (basicWellFormed vs) l.

End BasicPredicates.

(** a function with values in [[-1, 1]], as [Math.sin] and [Math.cos] *)
Definition bounded (f : R -> R) : Prop := forall t, (-1 <= f t <= 1)%R.

(** the outward unit normal at [p], for a sphere centred at [c] *)
Definition outward (p c : THREE.Vector3 R) : THREE.Vector3 R :=
  THREE.multiplyScalar (THREE.sub p c) (/ THREE.length (THREE.sub p c))%R.

(** [i] and [j] are two free particles of the array, [d] apart *)
Definition freePair (vs : list (Basic.VerletVertex R)) (i j : nat) (d : R)
  : Prop :=
  exists a b,
    vs !! i = Some a /\ vs !! j = Some b
    /\ Basic.isFixed a = false /\ Basic.isFixed b = false
    /\ THREE.length (THREE.sub (Basic.position b) (Basic.position a)) = d.

(** * Properties *)

(** ** Literals

    In binary64 [lit] gives the double that JavaScript reads the decimal
    literal as: here against the literals of the two files, as Rocq's own
    reader of binary64 literals rounds them. *)

#[warnings="-inexact-float"]
Example literals_binary64 :
  [lit 995 1000; lit 99 100; lit 5 10; lit 4 10; lit (-98) 10000;
   lit 4 1000; lit 3 1000; lit 8 10; lit 1 10; lit 8 100; lit 5 100;
   lit (-15) 10; lit 25 10; lit 3 10; lit 25 100; lit 0 1; lit 1 1]
  = [0.995; 0.99; 0.5; 0.4; -0.0098;
     0.004; 0.003; 0.8; 0.1; 0.08; 0.05;
     -1.5; 2.5; 0.3; 0.25; 0; 1]%float.
Proof. vm_compute. reflexivity. Qed.

(** ** Loops *)

Lemma forEach_invariant {S : Type} (P : S -> Prop) (f : nat -> S -> S) n s :
  (forall i s, P s -> P (f i s)) -> P s -> P (forEach n f s).
Proof.
  intros Hf. unfold forEach. generalize (seq 0 n) as l. intros l. revert s.
  induction l as [|i l IH]; simpl; auto.
Qed.

Lemma iter_invariant {S : Type} (P : S -> Prop) (f : S -> S) n s :
  (forall s, P s -> P (f s)) -> P s -> P (Nat.iter n f s).
Proof. intros Hf Hs. induction n; simpl; auto. Qed.

(** ** Comparisons of real numbers *)

Lemma Rltb_true a b : (a < b)%R -> Rltb a b = true.
Proof. intros Hab. unfold Rltb. destruct (Rlt_dec a b); [reflexivity|lra]. Qed.

Lemma Rltb_false a b : (b <= a)%R -> Rltb a b = false.
Proof. intros Hab. unfold Rltb. destruct (Rlt_dec a b); [lra|reflexivity]. Qed.

Lemma Rltb_lt a b : Rltb a b = true -> (a < b)%R.
Proof. unfold Rltb. destruct (Rlt_dec a b); [auto|discriminate]. Qed.

Lemma Reqb_true a : Reqb a a = true.
Proof. unfold Reqb. destruct (Req_dec_T a a); [reflexivity|congruence]. Qed.

Lemma Reqb_false a b : a <> b -> Reqb a b = false.
Proof. intros Hab. unfold Reqb. destruct (Req_dec_T a b); [contradiction|reflexivity]. Qed.

(** ** Zeros and comparisons of doubles *)

Lemma isZero_eqb a : isZero a = true -> (a === lit 0 1)%js = true.
Proof.
  unfold isZero. intros Ha. cbn. rewrite FloatAxioms.eqb_spec.
  destruct (Prim2SF a); try discriminate. vm_compute. reflexivity.
Qed.

Lemma mul_zero_r a b :
  finite a = true -> isZero b = true -> isZero (a * b)%float = true.
Proof.
  unfold finite, isZero. intros Ha Hb. rewrite FloatAxioms.mul_spec.
  destruct (Prim2SF a), (Prim2SF b); try discriminate; reflexivity.
Qed.

Lemma mul_zero_l a b :
  isZero a = true -> finite b = true -> isZero (a * b)%float = true.
Proof.
  unfold finite, isZero. intros Ha Hb. rewrite FloatAxioms.mul_spec.
  destruct (Prim2SF a), (Prim2SF b); try discriminate; reflexivity.
Qed.

(** [a <= b] excludes [b < a] *)
Lemma leb_not_gt (a b : float) :
  PrimFloat.leb a b = true -> PrimFloat.ltb b a = false.
Proof.
  rewrite FloatAxioms.leb_spec, FloatAxioms.ltb_spec. unfold SFleb, SFltb.
  destruct (Prim2SF a) as [sa|sa| |sa ma ea],
           (Prim2SF b) as [sb|sb| |sb mb eb];
    cbn; try discriminate; try reflexivity;
    try (destruct sa, sb; cbn; try discriminate; reflexivity).
  all: try (destruct sb; cbn; try discriminate; reflexivity).
  all: try (destruct sa; cbn; try discriminate; reflexivity).
  change (PosDef.Pos.compare_cont Eq ma mb) with (Pos.compare ma mb).
  change (PosDef.Pos.compare_cont Eq mb ma) with (Pos.compare mb ma).
  rewrite (Z.compare_antisym eb ea), (Pos.compare_antisym mb ma).
  destruct sa, sb; cbn; try discriminate; try reflexivity;
    destruct (eb ?= ea)%Z; cbn; try discriminate; try reflexivity;
    destruct (mb ?= ma)%positive; cbn; try discriminate; reflexivity.
Qed.

(** ** The constraints of the advanced engine *)

Section AdvancedConstraints.
Context {T : Type} `{Number T}.
Import Advanced.
Local Open Scope js_scope.

Lemma satisfy_inactive (c : AdvancedVerletConstraint T) vs :
  active c = false -> satisfy c vs = (c, vs).
Proof. intros E. unfold satisfy. rewrite E. reflexivity. Qed.

Lemma satisfy_short (c : AdvancedVerletConstraint T) vs :
  (restLength c > lit 1 10) = false -> (satisfy c vs).1 = c.
Proof.
  intros E. unfold satisfy.
  destruct (active c); [|reflexivity]. simpl.
  destruct (vs !! v1 c) as [a|]; [|reflexivity].
  destruct (vs !! v2 c) as [b|]; [|reflexivity].
  rewrite E, andb_false_r. case_match; reflexivity.
Qed.

Lemma inactive_stable c : active c = false -> stable c.
Proof. intros E vs. rewrite satisfy_inactive; auto. Qed.

Lemma short_stable c : (restLength c > lit 1 10) = false -> stable c.
Proof. intros E vs. apply satisfy_short, E. Qed.

Lemma relax_stable k k' cv c :
  stable c -> cv.1 !! k' = Some c -> (relax k cv).1 !! k' = Some c.
Proof.
  intros Hc Hk. unfold relax.
  destruct (cv.1 !! k) as [c0|] eqn:E; [|assumption].
  destruct (active c0); [|assumption]. simpl.
  destruct (decide (k = k')) as [->|Hne].
  - rewrite Hk in E. injection E as <-. rewrite Hc.
    rewrite list_lookup_insert_eq; [reflexivity|].
    eapply lookup_lt_Some; eauto.
  - rewrite list_lookup_insert_ne; auto.
Qed.

Lemma relaxAll_stable k cv c :
  stable c -> cv.1 !! k = Some c -> (relaxAll cv).1 !! k = Some c.
Proof.
  intros Hc. unfold relaxAll. generalize (List.length cv.1). intros n.
  apply (forEach_invariant (fun cv => cv.1 !! k = Some c)).
  intros i s. apply relax_stable; assumption.
Qed.

Lemma solver_stable n k cv c :
  stable c -> cv.1 !! k = Some c ->
  (Nat.iter n relaxAll cv).1 !! k = Some c.
Proof.
  intros Hc. apply (iter_invariant (fun cv => cv.1 !! k = Some c)).
  intros s. apply relaxAll_stable; assumption.
Qed.

Lemma tearCheck_cases vs (c : AdvancedVerletConstraint T) :
  tearCheck vs c = c
  \/ (tearCheck vs c = tear c /\ active c = true /\ overstretched vs c).
Proof.
  unfold tearCheck, overstretched.
  destruct (active c); [|left; reflexivity]. simpl.
  destruct (vs !! v1 c) as [a|]; [|left; reflexivity].
  destruct (vs !! v2 c) as [b|]; [|left; reflexivity].
  destruct (_ > _) eqn:E; [|left; reflexivity].
  right. repeat split; eauto.
Qed.

Lemma tearCheck_inactive vs (c : AdvancedVerletConstraint T) :
  active c = false -> tearCheck vs c = c.
Proof. intros E. unfold tearCheck. rewrite E. reflexivity. Qed.

Variables Math_sin Math_cos : T -> T.

Lemma useFrame_inactive props frame st k c :
  constraints st !! k = Some c -> active c = false ->
  constraints (useFrame Math_sin Math_cos props frame st) !! k = Some c.
Proof.
  intros Hk Hc. unfold useFrame.
  destruct (meshMounted frame); cbn [negb]; [|assumption]. cbv zeta.
  match goal with |- context [Nat.iter iterations relaxAll ?cv] =>
    pose proof (solver_stable iterations k cv c (inactive_stable c Hc) Hk) as Hs
  end.
  destruct (_ && _); cbn [constraints]; [|assumption].
  rewrite list_lookup_fmap, Hs. cbn [fmap option_fmap option_map].
  rewrite tearCheck_inactive; auto.
Qed.

(** C8. Tearing is one-way: a constraint whose [active] flag is false is
    left as it is, flag included, by every later frame, whatever the
    properties and times of those frames and wherever its particles go. *)
Theorem torn_stays_torn inputs st k c :
  constraints st !! k = Some c -> active c = false ->
  constraints (frames Math_sin Math_cos inputs st) !! k = Some c.
Proof.
  intros Hk Hc. unfold frames. revert st Hk.
  induction inputs as [|input inputs IH]; intros st Hk; simpl; [assumption|].
  apply IH. apply useFrame_inactive; assumption.
Qed.

(** C10. A constraint of rest length at most [0.1] (one for which the
    test [restLength > 0.1] of [satisfy] fails) is not changed by any number
    of calls of [satisfy]; over a whole frame it is either unchanged or torn
    by the periodic check, which then ran (tearing enabled, frame count a
    multiple of 60) and found the constraint active and longer than [2.5]
    times its rest length. *)
Theorem short_constraint_torn_only_by_periodic_check
    (c : AdvancedVerletConstraint T) n vs props frame st k :
  (restLength c > lit 1 10) = false ->
  constraints st !! k = Some c ->
  (Nat.iter n (fun cv => satisfy cv.1 cv.2) (c, vs)).1 = c
  /\ (let st' := useFrame Math_sin Math_cos props frame st in
      constraints st' !! k = Some c
      \/ (constraints st' !! k = Some (tear c)
          /\ active c = true
          /\ enableTearing props = true
          /\ (S (frameCount st) mod 60 = 0)%nat
          /\ overstretched (vertices st') c)).
Proof.
  intros Hshort Hk. split.
  - apply (iter_invariant (fun cv => cv.1 = c)); [|reflexivity].
    intros [c0 vs0]; simpl. intros ->. apply satisfy_short, Hshort.
  - unfold useFrame.
    destruct (meshMounted frame); cbn [negb]; [|left; assumption]. cbv zeta.
    match goal with |- context [Nat.iter iterations relaxAll ?cv] =>
      pose proof (solver_stable iterations k cv c (short_stable c Hshort) Hk)
        as Hs;
      generalize dependent (Nat.iter iterations relaxAll cv)
    end.
    intros cv Hs.
    destruct (enableTearing props); cbn [andb];
      [|left; cbn [constraints]; assumption].
    destruct (_ =? 0)%nat eqn:Hm; cbn [constraints vertices];
      [|left; assumption].
    rewrite list_lookup_fmap, Hs. cbn [fmap option_fmap option_map].
    destruct (tearCheck_cases cv.2 c) as [->|(-> & Ha & Ho)];
      [left; reflexivity|].
    right. repeat split; auto. apply Nat.eqb_eq, Hm.
Qed.

End AdvancedConstraints.

(** "Rest length at most [0.1]", in each interpretation of numbers, makes
    the test [restLength > 0.1] of [satisfy] fail. *)
Lemma short_real (c : Advanced.AdvancedVerletConstraint R) :
  (Advanced.restLength c <= 1 / 10)%R ->
  (Advanced.restLength c > lit 1 10)%js = false.
Proof. intros Hc. apply Rltb_false. cbn. lra. Qed.

Lemma short_binary64 (c : Advanced.AdvancedVerletConstraint float) :
  PrimFloat.leb (Advanced.restLength c) (lit 1 10) = true ->
  (Advanced.restLength c > lit 1 10)%js = false.
Proof. apply leb_not_gt. Qed.

Lemma torn_stays_torn_witness :
  Advanced.constraints (Scenario.tornState (T:=R)) !! 0%nat
    = Some Scenario.tornLink
  /\ Advanced.active (Scenario.tornLink (T:=R)) = false
  /\ Advanced.constraints
       (Advanced.frames Rtrigo_def.sin Rtrigo_def.cos
          [(Scenario.tearingOn, Scenario.frameAt 1%R);
           (Scenario.tearingOn, Scenario.frameAt 2%R)]
          Scenario.tornState) !! 0%nat
     = Some Scenario.tornLink.
Proof.
  split; [reflexivity|]. split; [reflexivity|].
  apply (torn_stays_torn (T:=R)); reflexivity.
Defined.

Lemma short_constraint_witness :
  (Advanced.restLength (Scenario.shortLink (T:=R)) > lit 1 10)%js = false
  /\ Advanced.constraints (Scenario.shortState (T:=R)) !! 0%nat
     = Some Scenario.shortLink
  /\ (Nat.iter 7 (fun cv => Advanced.satisfy cv.1 cv.2)
        (Scenario.shortLink (T:=R), Scenario.shortPair)).1
     = Scenario.shortLink
  /\ (let st' :=
        Advanced.useFrame Rtrigo_def.sin Rtrigo_def.cos
          Scenario.tearingOn (Scenario.frameAt 1%R) Scenario.shortState in
      Advanced.constraints st' !! 0%nat = Some Scenario.shortLink
      \/ (Advanced.constraints st' !! 0%nat
            = Some (Advanced.tear Scenario.shortLink)
          /\ Advanced.active (Scenario.shortLink (T:=R)) = true
          /\ Advanced.enableTearing (Scenario.tearingOn (T:=R)) = true
          /\ (S (Advanced.frameCount (Scenario.shortState (T:=R))) mod 60
              = 0)%nat
          /\ Advanced.overstretched (Advanced.vertices st')
               Scenario.shortLink)).
Proof.
  assert (Hshort :
    (Advanced.restLength (Scenario.shortLink (T:=R)) > lit 1 10)%js = false).
  { apply Rltb_false. simpl. lra. }
  split; [exact Hshort|]. split; [reflexivity|].
  apply (short_constraint_torn_only_by_periodic_check (T:=R));
    [exact Hshort|reflexivity].
Defined.

(** The periodic check on the short link, in binary64: at four times the
    rest length it tears the link, which [satisfy] on the same particles
    does not; at rest length it leaves the link alone. *)
Example periodic_check_binary64 :
  Advanced.tearCheck (T:=float) Scenario.overstretchedPair Scenario.shortLink
  = Advanced.tear Scenario.shortLink
  /\ (Advanced.satisfy (T:=float)
        Scenario.shortLink Scenario.overstretchedPair).1
     = Scenario.shortLink
  /\ Advanced.tearCheck (T:=float) Scenario.shortPair Scenario.shortLink
     = Scenario.shortLink.
Proof. vm_compute. repeat split. Qed.

(** ** Particles: forces and integration *)

Lemma totalForce_cons {T : Type} `{Number T} f fs :
  totalForce (f :: fs) = THREE.add f (totalForce fs).
Proof. reflexivity. Qed.

(** Equations between vectors of real numbers, by components *)
Ltac vector :=
  unfold THREE.add, THREE.sub, THREE.multiplyScalar, THREE.divideScalar;
  cbn; f_equal; unfold Rdiv; ring.

Section Particles.
Context {T : Type} `{Number T}.
Local Open Scope js_scope.

Lemma advanced_addForce_free (f : THREE.Vector3 T) v :
  Advanced.free v = true -> Advanced.free (Advanced.addForce f v) = true.
Proof.
  unfold Advanced.addForce, Advanced.free. intros Hv. rewrite Hv. exact Hv.
Qed.

Lemma advanced_addForce_skips (f : THREE.Vector3 T) v :
  Advanced.free v = false -> Advanced.addForce f v = v.
Proof. unfold Advanced.addForce, Advanced.free. intros ->. reflexivity. Qed.

Lemma advanced_addForces_skips (fs : list (THREE.Vector3 T)) v :
  Advanced.free v = false -> Advanced.addForces fs v = v.
Proof.
  intros Hv. unfold Advanced.addForces.
  induction fs as [|f fs IH]; simpl; [reflexivity|].
  rewrite advanced_addForce_skips; assumption.
Qed.

Lemma advanced_update_skips (dt : T) v :
  Advanced.free v = false -> Advanced.update dt v = v.
Proof.
  unfold Advanced.update, Advanced.free. intros Hv.
  destruct (Advanced.isFixed v), (Advanced.pinned v);
    try reflexivity; discriminate.
Qed.

Lemma advanced_update_free (dt : T) v :
  Advanced.free v = true ->
  Advanced.update dt v
  = Advanced.mkVertex
      (THREE.add
         (THREE.add (Advanced.position v)
            (THREE.multiplyScalar
               (THREE.sub (Advanced.position v) (Advanced.oldPosition v))
               Advanced.DAMPING))
         (THREE.multiplyScalar (Advanced.acceleration v) (dt * dt)))
      (Advanced.position v)
      (THREE.mk (lit 0 1) (lit 0 1) (lit 0 1))
      (Advanced.isFixed v) (Advanced.mass v) (Advanced.pinned v).
Proof.
  unfold Advanced.update, Advanced.free. intros Hv.
  destruct (Advanced.isFixed v), (Advanced.pinned v);
    try discriminate; reflexivity.
Qed.

Variables Math_sin Math_cos : T -> T.

(** C4, as amended.  The advanced particle adds the force scaled by
    [1 / mass] to its accumulated acceleration when it is neither fixed nor
    pinned, and does nothing otherwise.  The basic particle has no mass and
    no pinned flag: its [addForce] adds the force itself, whatever the fixed
    flag; it is the frame loop that leaves a fixed particle alone. *)
Theorem addForce_accumulates
    (force : THREE.Vector3 T) (v : Advanced.AdvancedVerletVertex T)
    (w : Basic.VerletVertex T) (props : Basic.Props T) (time : T)
    (s : Basic.Sphere T) :
  (Advanced.free v = true ->
   Advanced.addForce force v
   = Advanced.setAcceleration
       (THREE.add (Advanced.acceleration v)
          (THREE.multiplyScalar force (lit 1 1 / Advanced.mass v)))
       v)
  /\ (Advanced.free v = false -> Advanced.addForce force v = v)
  /\ Basic.acceleration (Basic.addForce force w)
     = THREE.add (Basic.acceleration w) force
  /\ Basic.position (Basic.addForce force w) = Basic.position w
  /\ Basic.oldPosition (Basic.addForce force w) = Basic.oldPosition w
  /\ Basic.isFixed (Basic.addForce force w) = Basic.isFixed w
  /\ (Basic.isFixed w = true ->
      Basic.applyForces Math_sin Math_cos props time s w = w).
Proof.
  split; [|split; [apply advanced_addForce_skips|]].
  - unfold Advanced.addForce, Advanced.free. intros ->. reflexivity.
  - repeat split. unfold Basic.applyForces. intros ->. reflexivity.
Qed.

End Particles.

(** [addForce] of the basic engine on a fixed particle (binary64): gravity
    is added to the particle's accumulated acceleration all the same. *)
Lemma basic_addForce_changes_fixed_particle :
  let w := Basic.newVertex (T:=float) (lit 0 1) (lit 0 1) (lit 0 1) true in
  let force := THREE.mk (lit 0 1) Basic.GRAVITY (lit 0 1) in
  Basic.isFixed w = true
  /\ Basic.acceleration (Basic.addForce force w) = force
  /\ (THREE.y (Basic.acceleration (Basic.addForce force w))
      === THREE.y (Basic.acceleration w))%js = false.
Proof. vm_compute. repeat split. Qed.

Lemma advanced_addForces_free fs (v : Advanced.AdvancedVerletVertex R) :
  Advanced.free v = true ->
  Advanced.addForces fs v
  = Advanced.setAcceleration
      (THREE.add (Advanced.acceleration v)
         (THREE.divideScalar (totalForce fs) (Advanced.mass v)))
      v.
Proof.
  revert v. induction fs as [|f fs IH]; intros v Hv.
  - destruct v as [p o [ax ay az] fx m pn].
    unfold Advanced.addForces, Advanced.setAcceleration. cbn. f_equal. vector.
  - unfold Advanced.addForces in *. cbn [fold_left].
    rewrite IH by (apply advanced_addForce_free, Hv).
    rewrite totalForce_cons. generalize (totalForce fs). intros [tx ty tz].
    unfold Advanced.addForce. unfold Advanced.free in Hv. rewrite Hv.
    destruct v as [p o [ax ay az] fx m pn], f as [f1 f2 f3].
    unfold Advanced.setAcceleration. cbn. f_equal. vector.
Qed.

Lemma basic_addForces_sum fs (w : Basic.VerletVertex R) :
  Basic.addForces fs w
  = Basic.mkVertex (Basic.position w) (Basic.oldPosition w)
      (THREE.add (Basic.acceleration w) (totalForce fs)) (Basic.isFixed w).
Proof.
  revert w. induction fs as [|f fs IH]; intros w.
  - destruct w as [p o [ax ay az] fx].
    unfold Basic.addForces. cbn. f_equal. vector.
  - unfold Basic.addForces in *. cbn [fold_left]. rewrite IH.
    rewrite totalForce_cons. generalize (totalForce fs). intros [tx ty tz].
    destruct w as [p o [ax ay az] fx], f as [f1 f2 f3].
    unfold Basic.addForce. cbn. f_equal. vector.
Qed.

(** C7. Integration, in real arithmetic.  A particle that is neither fixed
    nor pinned, given the forces [fs] and then updated, ends at
    [position + DAMPING * (position - oldPosition)
     + (acceleration + total fs / mass) * dt * dt]
    where [acceleration] is what had been accumulated before (nothing, after
    the constructor and after every update); its old position becomes the
    position it had, and its accumulator is reset.  A fixed or pinned
    particle comes out of [update] as it went in.  The basic particle does
    the same with no mass (the forces are added as they are) and no pinned
    flag. *)
Theorem update_integrates
    (dt : R) (fs : list (THREE.Vector3 R))
    (v : Advanced.AdvancedVerletVertex R) (w : Basic.VerletVertex R) :
  (Advanced.free v = true ->
   Advanced.update dt (Advanced.addForces fs v)
   = Advanced.mkVertex
       (THREE.add
          (THREE.add (Advanced.position v)
             (THREE.multiplyScalar
                (THREE.sub (Advanced.position v) (Advanced.oldPosition v))
                Advanced.DAMPING))
          (THREE.multiplyScalar
             (THREE.add (Advanced.acceleration v)
                (THREE.divideScalar (totalForce fs) (Advanced.mass v)))
             (dt * dt)%R))
       (Advanced.position v)
       (THREE.mk 0%R 0%R 0%R)
       (Advanced.isFixed v) (Advanced.mass v) (Advanced.pinned v))
  /\ (Advanced.free v = false ->
      Advanced.update dt (Advanced.addForces fs v) = v)
  /\ (Basic.isFixed w = false ->
      Basic.update dt (Basic.addForces fs w)
      = Basic.mkVertex
          (THREE.add
             (THREE.add (Basic.position w)
                (THREE.multiplyScalar
                   (THREE.sub (Basic.position w) (Basic.oldPosition w))
                   Basic.DAMPING))
             (THREE.multiplyScalar
                (THREE.add (Basic.acceleration w) (totalForce fs))
                (dt * dt)%R))
          (Basic.position w)
          (THREE.mk 0%R 0%R 0%R)
          (Basic.isFixed w))
  /\ (Basic.isFixed w = true -> Basic.update dt w = w).
Proof.
  repeat split.
  - intros Hv. rewrite advanced_addForces_free by assumption.
    rewrite advanced_update_free by (destruct v; exact Hv).
    destruct v; cbn. f_equal. f_equal; unfold Rdiv; ring.
  - intros Hv. rewrite advanced_addForces_skips by assumption.
    apply advanced_update_skips, Hv.
  - intros Hw. rewrite basic_addForces_sum.
    unfold Basic.update. cbn. rewrite Hw. f_equal. f_equal; unfold Rdiv; ring.
  - intros Hw. unfold Basic.update. rewrite Hw. reflexivity.
Qed.

(** ** Wind *)

(** C9. With wind intensity [0] the wind force is the zero vector, in both
    engines, at every time and position and for any [Math.sin] and
    [Math.cos]; giving it to a particle leaves the particle as it was, so
    gravity is all a free particle has accumulated.  (Real arithmetic.) *)
Theorem zero_wind
    (Math_sin Math_cos : R -> R) (time : R) (p : THREE.Vector3 R)
    (v : Advanced.AdvancedVerletVertex R) (w : Basic.VerletVertex R) :
  Advanced.windForce Math_sin Math_cos time 0%R p = THREE.mk 0%R 0%R 0%R
  /\ Basic.windForce Math_sin Math_cos time 0%R p = THREE.mk 0%R 0%R 0%R
  /\ Advanced.addForce (Advanced.windForce Math_sin Math_cos time 0%R p) v = v
  /\ Basic.addForce (Basic.windForce Math_sin Math_cos time 0%R p) w = w.
Proof.
  assert (Ha : Advanced.windForce Math_sin Math_cos time 0%R p
               = THREE.mk 0%R 0%R 0%R).
  { unfold Advanced.windForce, Advanced.WIND_STRENGTH. cbn.
    f_equal; unfold Rdiv; ring. }
  assert (Hb : Basic.windForce Math_sin Math_cos time 0%R p
               = THREE.mk 0%R 0%R 0%R).
  { unfold Basic.windForce, Basic.WIND_STRENGTH. cbn.
    f_equal; unfold Rdiv; ring. }
  rewrite Ha, Hb. repeat split.
  - unfold Advanced.addForce.
    destruct v as [p0 o [ax ay az] fx m pn]; cbn.
    destruct (negb fx && negb pn); [|reflexivity].
    unfold Advanced.setAcceleration. cbn. f_equal. vector.
  - destruct w as [p0 o [ax ay az] fx]. unfold Basic.addForce. cbn.
    f_equal. vector.
Qed.

(** In binary64 the product of a finite number and [0] is [0] or [-0]: with
    wind intensity [0], each component of the wind force of the advanced
    engine [=== 0], as long as the noise terms scaled by [WIND_STRENGTH] are
    finite (they are at most [0.004] in size for a sine and a cosine). *)
Lemma zero_wind_binary64
    (Math_sin Math_cos : float -> float) (time : float)
    (p : THREE.Vector3 float) :
  (forall a b,
     finite (Math_sin a * Math_cos b * Advanced.WIND_STRENGTH)%js = true) ->
  (forall a b,
     finite (Math_cos a * Math_sin b * Advanced.WIND_STRENGTH)%js = true) ->
  let w := Advanced.windForce Math_sin Math_cos time (lit 0 1) p in
  (THREE.x w === lit 0 1)%js = true
  /\ (THREE.y w === lit 0 1)%js = true
  /\ (THREE.z w === lit 0 1)%js = true.
Proof.
  intros Hsc Hcs w. subst w. unfold Advanced.windForce. cbn [THREE.x THREE.y THREE.z].
  repeat split; apply isZero_eqb.
  - apply mul_zero_r; [apply Hsc|reflexivity].
  - apply mul_zero_l; [|reflexivity]. apply mul_zero_r; [apply Hsc|reflexivity].
  - apply mul_zero_l; [|reflexivity]. apply mul_zero_r; [apply Hcs|reflexivity].
Qed.

(** ** Lengths of real vectors *)

Section RealVectors.
Local Open Scope R_scope.

Lemma length_scaled (v : THREE.Vector3 R) (k : R) :
  THREE.length (THREE.multiplyScalar v k) = Rabs k * THREE.length v.
Proof.
  destruct v as [a b c]. unfold THREE.length, THREE.multiplyScalar. cbn.
  replace (a * k * (a * k) + b * k * (b * k) + c * k * (c * k))
    with (Rsqr k * (a * a + b * b + c * c)) by (unfold Rsqr; ring).
  rewrite sqrt_mult_alt by apply Rle_0_sqr.
  rewrite sqrt_Rsqr_abs. reflexivity.
Qed.




Lemma falsy_nonzero (a : R) : a <> 0 -> falsy a = false.
Proof.
  intros Ha. unfold falsy. cbn. rewrite Reqb_true.
  rewrite Reqb_false; [reflexivity|].
  unfold Rdiv. rewrite Rmult_0_l. exact Ha.
Qed.

Lemma normalize_nonzero (v : THREE.Vector3 R) :
  THREE.length v <> 0 ->
  THREE.normalize v = THREE.multiplyScalar v (/ THREE.length v).
Proof.
  intros Hv. unfold THREE.normalize. cbv zeta.
  rewrite falsy_nonzero by assumption.
  unfold THREE.divideScalar. f_equal. cbn. field. exact Hv.
Qed.

(** Moving [p] along the direction from [c] to [p] by [m] minus their
    distance puts it at distance [m] from [c]. *)
Lemma pushed_out (p c : THREE.Vector3 R) (m : R) :
  let t := THREE.sub p c in
  0 < THREE.length t -> 0 <= m ->
  THREE.length
    (THREE.sub
       (THREE.add p
          (THREE.multiplyScalar (THREE.normalize t) (m - THREE.length t)))
       c)
  = m.
Proof.
  intros t Ht Hm. rewrite normalize_nonzero by lra.
  set (d := THREE.length t) in *.
  replace (THREE.sub
             (THREE.add p
                (THREE.multiplyScalar (THREE.multiplyScalar t (/ d)) (m - d)))
             c)
    with (THREE.multiplyScalar t (m / d)).
  - rewrite length_scaled. fold d. rewrite Rabs_right.
    + field. lra.
    + apply Rle_ge. apply Rmult_le_pos; [lra|].
      left. apply Rinv_0_lt_compat. lra.
  - subst t. clearbody d. destruct p as [a b e], c as [f g h].
    unfold THREE.sub, THREE.add, THREE.multiplyScalar. cbn.
    f_equal; field; lra.
Qed.

End RealVectors.

(** ** Sphere collision *)

(** C5, as amended.  In real arithmetic, a particle at a distance from the
    centre of the sphere that is positive and below [radius + margin] is, after
    the collision code of either engine, at distance exactly
    [radius + margin] from that centre (the margin is [0.05] in the basic
    engine and [0.08] in the advanced one). *)
Theorem sphere_collision_exact
    (s : Basic.Sphere R) (w : Basic.VerletVertex R)
    (s' : Advanced.Sphere R) (v : Advanced.AdvancedVerletVertex R) :
  let d := THREE.length (THREE.sub (Basic.position w) (Basic.sphere_position s)) in
  let d' :=
    THREE.length
      (THREE.sub (Advanced.position v) (Advanced.sphere_position s')) in
  (0 < d < Basic.radius s + 5 / 100)%R ->
  (0 < d' < Advanced.radius s' + 8 / 100)%R ->
  THREE.length
    (THREE.sub (Basic.position (Basic.sphereCollision s w))
               (Basic.sphere_position s))
  = (Basic.radius s + 5 / 100)%R
  /\ THREE.length
       (THREE.sub (Advanced.position (Advanced.sphereCollision s' v))
                  (Advanced.sphere_position s'))
     = (Advanced.radius s' + 8 / 100)%R.
Proof.
  intros d d' [Hd0 Hd] [Hd0' Hd']. split.
  - unfold Basic.sphereCollision. cbv zeta. fold d.
    change (nltb d (nadd (Basic.radius s) (lit 5 100)))
      with (Rltb d (Basic.radius s + 5 / 100)).
    rewrite Rltb_true by assumption.
    cbn [Basic.setPosition Basic.position].
    apply (pushed_out (Basic.position w) (Basic.sphere_position s)
                      (Basic.radius s + 5 / 100)); fold d; lra.
  - unfold Advanced.sphereCollision. cbv zeta. fold d'.
    change (nltb d' (nadd (Advanced.radius s') (lit 8 100)))
      with (Rltb d' (Advanced.radius s' + 8 / 100)).
    change (nltb (lit 0 1) d') with (Rltb (0 / 1) d').
    rewrite !Rltb_true by lra. cbn [andb].
    assert (Hp : forall b (x y : Advanced.AdvancedVerletVertex R),
               Advanced.position x = Advanced.position y ->
               Advanced.position (if b : bool then x else y) = Advanced.position y).
    { intros [] x y Hxy; auto. }
    rewrite Hp by reflexivity.
    cbn [Advanced.setPosition Advanced.position].
    apply (pushed_out (Advanced.position v) (Advanced.sphere_position s')
                      (Advanced.radius s' + 8 / 100)); fold d'; lra.
Qed.

Lemma length_along_x (a : R) :
  (0 <= a)%R ->
  THREE.length (THREE.sub (THREE.mk a (lit 0 1) (lit 0 1)) Scenario.origin) = a.
Proof.
  intros Ha. unfold THREE.length, THREE.sub, Scenario.origin. cbn.
  replace ((a - 0 / 1) * (a - 0 / 1) + (0 / 1 - 0 / 1) * (0 / 1 - 0 / 1)
           + (0 / 1 - 0 / 1) * (0 / 1 - 0 / 1))%R
    with (a * a)%R by (unfold Rdiv; ring).
  apply sqrt_square, Ha.
Qed.

Lemma sphere_collision_exact_witness :
  let s := Scenario.basicSphere (T:=R) in
  let w := Scenario.basicParticle (lit 1 10) in
  let s' := Scenario.restingSphere (T:=R) in
  let v := Scenario.particle (lit 1 10) in
  ((0 < THREE.length (THREE.sub (Basic.position w) (Basic.sphere_position s))
    < Basic.radius s + 5 / 100)
  /\ (0 < THREE.length
            (THREE.sub (Advanced.position v) (Advanced.sphere_position s'))
      < Advanced.radius s' + 8 / 100)
  /\ THREE.length
    (THREE.sub (Basic.position (Basic.sphereCollision s w))
               (Basic.sphere_position s))
  = (Basic.radius s + 5 / 100)
  /\ THREE.length
       (THREE.sub (Advanced.position (Advanced.sphereCollision s' v))
                  (Advanced.sphere_position s'))
     = (Advanced.radius s' + 8 / 100))%R.
Proof.
  cbv zeta.
  assert (H1 : (0 < THREE.length
                      (THREE.sub
                         (Basic.position (Scenario.basicParticle (lit 1 10)))
                         (Basic.sphere_position (Scenario.basicSphere (T:=R))))
                < Basic.radius (Scenario.basicSphere (T:=R)) + 5 / 100)%R).
  { change (0 < THREE.length (THREE.sub (THREE.mk (lit 1 10) (lit 0 1) (lit 0 1))
                                       Scenario.origin)
            < 25 / 100 + 5 / 100)%R.
    rewrite length_along_x; cbn; lra. }
  assert (H2 : (0 < THREE.length
                      (THREE.sub
                         (Advanced.position (Scenario.particle (lit 1 10)))
                         (Advanced.sphere_position
                            (Scenario.restingSphere (T:=R))))
                < Advanced.radius (Scenario.restingSphere (T:=R)) + 8 / 100)%R).
  { change (0 < THREE.length (THREE.sub (THREE.mk (lit 1 10) (lit 0 1) (lit 0 1))
                                       Scenario.origin)
            < 3 / 10 + 8 / 100)%R.
    rewrite length_along_x; cbn; lra. }
  split; [exact H1|]. split; [exact H2|].
  exact (sphere_collision_exact _ _ _ _ H1 H2).
Defined.

(** A particle at the very centre of the sphere is within the margin and is
    left where it is by both engines (binary64). *)
Lemma sphere_collision_at_centre :
  let s := Scenario.basicSphere (T:=float) in
  let w := Scenario.basicParticle (lit 0 1) in
  let s' := Scenario.restingSphere (T:=float) in
  let v := Scenario.particle (lit 0 1) in
  (THREE.length (THREE.sub (Basic.position w) (Basic.sphere_position s))
   < Basic.radius s + lit 5 100)%js = true
  /\ (THREE.length
        (THREE.sub (Basic.position (Basic.sphereCollision s w))
                   (Basic.sphere_position s))
      === lit 0 1)%js = true
  /\ (THREE.length
        (THREE.sub (Basic.position (Basic.sphereCollision s w))
                   (Basic.sphere_position s))
      === Basic.radius s + lit 5 100)%js = false
  /\ (THREE.length (THREE.sub (Advanced.position v) (Advanced.sphere_position s'))
      < Advanced.radius s' + lit 8 100)%js = true
  /\ (THREE.length
        (THREE.sub (Advanced.position (Advanced.sphereCollision s' v))
                   (Advanced.sphere_position s'))
      === lit 0 1)%js = true
  /\ (THREE.length
        (THREE.sub (Advanced.position (Advanced.sphereCollision s' v))
                   (Advanced.sphere_position s'))
      === Advanced.radius s' + lit 8 100)%js = false.
Proof. vm_compute. repeat split. Qed.

(** ** Relaxation of a constraint *)

Section Relaxation.
Context {T : Type} `{Number T}.
Import Advanced.
Local Open Scope js_scope.

(** What [satisfy] does to the vertex array when both ends are free:
    nothing (inactive, torn by the call, or of zero length), or the two
    position updates. *)
Lemma satisfy_vertices (c : AdvancedVerletConstraint T) vs a b :
  vs !! v1 c = Some a -> vs !! v2 c = Some b ->
  free a = true -> free b = true ->
  (satisfy c vs).2 = vs \/ (satisfy c vs).2 = relaxed c a b vs.
Proof.
  intros Ha Hb Fa Fb. unfold satisfy. unfold free in Fa, Fb.
  destruct (active c); [|left; reflexivity]. cbn [negb].
  rewrite Ha, Hb. cbv zeta.
  match goal with |- context [if ?t then (tear c, vs) else _] =>
    destruct t; [left; reflexivity|] end.
  match goal with |- context [if ?t then (c, vs) else _] =>
    destruct t; [left; reflexivity|] end.
  rewrite Fa, Fb. right. reflexivity.
Qed.

End Relaxation.



(** The same pair in binary64: the particle of mass 1 moves by [0.09375],
    the particle of mass 3 by [0.03125]. *)
Example mass_weighted_correction_binary64 :
  Advanced.satisfy (T:=float) Scenario.unitLink Scenario.unequalPair
  = (Scenario.unitLink,
     [Advanced.setPosition
        (THREE.mk (lit (-9375) 100000) (lit 0 1) (lit 0 1))
        (Scenario.massive (lit 1 1) (lit 0 1));
      Advanced.setPosition
        (THREE.mk (lit 53125 100000) (lit 0 1) (lit 0 1))
        (Scenario.massive (lit 3 1) (lit 5 10))]).
Proof. vm_compute. reflexivity. Qed.



Section Gap.
Local Open Scope R_scope.

Lemma distance_scaled (p q : THREE.Vector3 R) (k : R) :
  let delta := THREE.sub q p in
  0 <= 1 + 2 * k ->
  THREE.distanceTo (THREE.sub p (THREE.multiplyScalar delta k))
                   (THREE.add q (THREE.multiplyScalar delta k))
  = (1 + 2 * k) * THREE.length delta.
Proof.
  intros delta Hk.
  rewrite <- (Rabs_right (1 + 2 * k)) by lra.
  rewrite <- length_scaled. subst delta.
  destruct p as [a b c], q as [d e f].
  unfold THREE.distanceTo, THREE.distanceToSquared, THREE.length,
    THREE.sub, THREE.add, THREE.multiplyScalar. cbn.
  f_equal. ring.
Qed.

(** The basic engine closes the fraction [stiffness] of the gap between the
    distance and the rest length. *)
Lemma basic_satisfy_gap (stiffness : R) (c : Basic.VerletConstraint R) vs a b :
  vs !! Basic.v1 c = Some a -> vs !! Basic.v2 c = Some b ->
  Basic.v1 c <> Basic.v2 c ->
  Basic.isFixed a = false -> Basic.isFixed b = false ->
  let d := THREE.length (THREE.sub (Basic.position b) (Basic.position a)) in
  0 < d -> 0 <= stiffness <= 1 -> 0 <= Basic.restLength c ->
  Basic.gap (Basic.satisfyWith stiffness c vs) (Basic.v1 c) (Basic.v2 c)
  = Some (d - (d - Basic.restLength c) * stiffness).
Proof.
  intros Ha Hb Hne Fa Fb d Hd Hs HL.
  unfold Basic.satisfyWith. rewrite Ha, Hb. cbv zeta. fold d.
  change (neqb d (lit 0 1)) with (Reqb d (0 / 1)).
  rewrite Reqb_false by lra. rewrite Fa, Fb. cbn [negb].
  unfold Basic.gap.
  rewrite list_lookup_alter_ne by auto.
  rewrite list_lookup_alter_eq, Ha.
  rewrite list_lookup_alter_eq, list_lookup_alter_ne by auto. rewrite Hb.
  cbn [fmap option_fmap option_map Basic.setPosition Basic.position].
  f_equal.
  change (nmul (nmul (ndiv (nsub (Basic.restLength c) d) d) stiffness) (lit 5 10))
    with ((Basic.restLength c - d) / d * stiffness * (5 / 10)).
  set (k := (Basic.restLength c - d) / d * stiffness * (5 / 10)).
  assert (Hk : 1 + 2 * k = (d - (d - Basic.restLength c) * stiffness) / d).
  { unfold k. field. lra. }
  rewrite distance_scaled.
  - fold d. rewrite Hk. field. lra.
  - rewrite Hk. apply Rmult_le_pos; [nra|]. left. apply Rinv_0_lt_compat, Hd.
Qed.

Lemma multiplyScalar_twice (v : THREE.Vector3 R) (a b : R) :
  THREE.multiplyScalar (THREE.multiplyScalar v a) b
  = THREE.multiplyScalar v (a * b).
Proof. destruct v. unfold THREE.multiplyScalar. cbn. f_equal; ring. Qed.

Lemma Rltb_and_false a b c d :
  ~ (a < b /\ c < d) -> Rltb a b && Rltb c d = false.
Proof.
  intros Hn. unfold Rltb.
  destruct (Rlt_dec a b), (Rlt_dec c d); try reflexivity. tauto.
Qed.

(** The advanced engine, for two particles of equal mass, closes the
    fraction [stiffness / 2] of the gap, when it relaxes the constraint. *)
Lemma advanced_satisfy_gap (c : Advanced.AdvancedVerletConstraint R) vs a b :
  vs !! Advanced.v1 c = Some a -> vs !! Advanced.v2 c = Some b ->
  Advanced.v1 c <> Advanced.v2 c ->
  Advanced.free a = true -> Advanced.free b = true ->
  Advanced.mass a = Advanced.mass b -> 0 < Advanced.mass a ->
  let d := THREE.length (THREE.sub (Advanced.position b) (Advanced.position a)) in
  let L := Advanced.restLength c in
  0 < d -> 0 <= Advanced.stiffness c <= 1 -> 0 <= L ->
  Advanced.active c = true ->
  ~ (L * (8 / 10) < d /\ 1 / 10 < L) ->
  Advanced.gap (Advanced.satisfy c vs).2 (Advanced.v1 c) (Advanced.v2 c)
  = Some (d - (d - L) * Advanced.stiffness c / 2).
Proof.
  intros Ha Hb Hne Fa Fb Hm Hm0 d L Hd Hs HL Hact Hnt.
  unfold Advanced.satisfy. rewrite Hact, Ha, Hb. cbn [negb]. cbv zeta. fold d.
  change (nltb (nmul (Advanced.restLength c) Advanced.TEAR_THRESHOLD) d
          && nltb (lit 1 10) (Advanced.restLength c))
    with (Rltb (L * (8 / 10)) d && Rltb (1 / 10) L).
  rewrite Rltb_and_false by assumption.
  change (neqb d (lit 0 1)) with (Reqb d (0 / 1)).
  rewrite Reqb_false by lra.
  unfold Advanced.free in Fa, Fb. rewrite Fa, Fb. cbn [snd].
  unfold Advanced.gap.
  rewrite list_lookup_alter_ne by auto.
  rewrite list_lookup_alter_eq, Ha.
  rewrite list_lookup_alter_eq, list_lookup_alter_ne by auto. rewrite Hb.
  cbn [fmap option_fmap option_map Advanced.setPosition Advanced.position].
  f_equal. rewrite <- Hm.
  change (nmul (nmul (ndiv (nsub (Advanced.restLength c) d) d)
                     (Advanced.stiffness c)) (lit 5 10))
    with ((L - d) / d * Advanced.stiffness c * (5 / 10)).
  change (ndiv (Advanced.mass a) (nadd (Advanced.mass a) (Advanced.mass a)))
    with (Advanced.mass a / (Advanced.mass a + Advanced.mass a)).
  rewrite !multiplyScalar_twice.
  set (k := (L - d) / d * Advanced.stiffness c * (5 / 10)
            * (Advanced.mass a / (Advanced.mass a + Advanced.mass a))).
  assert (Hk : 1 + 2 * k = (d - (d - L) * Advanced.stiffness c / 2) / d).
  { unfold k. field. lra. }
  rewrite distance_scaled.
  - fold d. rewrite Hk. field. lra.
  - rewrite Hk. apply Rmult_le_pos; [nra|]. left. apply Rinv_0_lt_compat, Hd.
Qed.

End Gap.

(** ** Tearing inside the solver *)

Section SolverTear.
Context {T : Type} `{Number T}.
Import Advanced.
Local Open Scope js_scope.

Lemma satisfy_tears (c : AdvancedVerletConstraint T) vs a b :
  active c = true -> vs !! v1 c = Some a -> vs !! v2 c = Some b ->
  (THREE.length (THREE.sub (position b) (position a))
     > restLength c * TEAR_THRESHOLD) = true ->
  (restLength c > lit 1 10) = true ->
  satisfy c vs = (tear c, vs).
Proof.
  intros Hc Ha Hb Hd Hl. unfold satisfy. rewrite Hc, Ha, Hb.
  cbn [negb]. cbv zeta. rewrite Hd, Hl. reflexivity.
Qed.

End SolverTear.

Lemma length_unit_x : THREE.length (THREE.mk 1%R 0%R 0%R) = 1%R.
Proof.
  unfold THREE.length. cbn.
  replace (1 * 1 + 0 * 0 + 0 * 0)%R with 1%R by ring. apply sqrt_1.
Qed.

Lemma no_wind (Math_sin Math_cos : R -> R) time intensity p :
  intensity = 0%R ->
  Advanced.windForce Math_sin Math_cos time intensity p = THREE.mk 0%R 0%R 0%R.
Proof.
  intros ->. unfold Advanced.windForce, Advanced.WIND_STRENGTH. cbn.
  f_equal; unfold Rdiv; ring.
Qed.

(** Gravity moves the two resting particles by the same amount: after the
    forces and the integration they are still one unit apart along [x]. *)
Lemma resting_after_forces (Math_sin Math_cos : R -> R) (time dt : R) :
  exists p0 p1,
    (Advanced.update dt <$>
       forEach 2
         (Advanced.applyForces Math_sin Math_cos Scenario.tearingOff time
            (Advanced.moveSphere Math_sin Math_cos time Scenario.restingSphere)
            1)
         Scenario.restingPair)
    = [p0; p1]
    /\ THREE.sub (Advanced.position p1) (Advanced.position p0)
       = THREE.mk 1%R 0%R 0%R.
Proof.
  eexists _, _. split; [reflexivity|].
  cbn. rewrite !no_wind by field.
  unfold THREE.add, THREE.sub, THREE.multiplyScalar, THREE.divideScalar. cbn.
  f_equal; field.
Qed.

(** C2 at a failing input (real arithmetic, any [Math.sin] and [Math.cos],
    any time and time step): tearing disabled, no wind, no sphere, two free
    particles at rest joined by an active constraint at its rest length
    [1.0].  After one frame the constraint is inactive: the first call of
    [satisfy] finds [distance > restLength * 0.8] and [restLength > 0.1]. *)
Theorem resting_link_torn_with_tearing_off
    (Math_sin Math_cos : R -> R) (time dt : R) :
  Advanced.enableTearing (Scenario.tearingOff (T:=R)) = false
  /\ Advanced.constraints (Scenario.restState (T:=R)) = [Scenario.restLink]
  /\ Advanced.active (Scenario.restLink (T:=R)) = true
  /\ Advanced.constraints
       (Advanced.useFrame Math_sin Math_cos Scenario.tearingOff
          (Advanced.mkFrame true time dt) Scenario.restState)
     = [Advanced.tear Scenario.restLink].
Proof.
  split; [reflexivity|]. split; [reflexivity|]. split; [reflexivity|].
  unfold Advanced.useFrame.
  cbn [Advanced.meshMounted negb Advanced.elapsedTime Advanced.deltaTime].
  cbv zeta.
  change (Advanced.vertices Scenario.restState)
    with (Scenario.restingPair (T:=R)).
  change (List.length (Scenario.restingPair (T:=R))) with 2%nat.
  change (S (Advanced.frameCount (Scenario.restState (T:=R)))) with 1%nat.
  change (Advanced.sphere Scenario.restState)
    with (Scenario.restingSphere (T:=R)).
  destruct (resting_after_forces Math_sin Math_cos time dt)
    as (p0 & p1 & -> & Hd).
  change (Advanced.enableTearing Scenario.tearingOff && (1 mod 60 =? 0)%nat)
    with false.
  cbn [Advanced.constraints].
  assert (Hs : Advanced.satisfy Scenario.restLink [p0; p1]
               = (Advanced.tear Scenario.restLink, [p0; p1])).
  { apply (satisfy_tears Scenario.restLink [p0; p1] p0 p1); try reflexivity.
    - rewrite Hd, length_unit_x. apply Rltb_true. cbn. lra.
    - apply Rltb_true. cbn. lra. }
  change (Advanced.constraints Scenario.restState)
    with [Scenario.restLink (T:=R)].
  assert (H1 : Advanced.relaxAll ([Scenario.restLink], [p0; p1])
               = ([Advanced.tear Scenario.restLink], [p0; p1])).
  { unfold Advanced.relaxAll, forEach. cbn [List.length seq fold_left fst].
    unfold Advanced.relax.
    cbn [fst snd lookup list_lookup Scenario.restLink Advanced.active].
    change (Advanced.mkConstraint 0 1 (lit 1 1) Advanced.STIFFNESS true)
      with (Scenario.restLink (T:=R)).
    rewrite Hs. reflexivity. }
  unfold Advanced.iterations, Nat.iter. cbn [nat_rect].
  rewrite H1. reflexivity.
Qed.

(** The same in binary64, for the solver alone: the constructor gives the
    constraint its rest length, and the first relaxation pass tears it. *)
Example resting_link_torn_binary64 :
  Advanced.newConstraint (T:=float) Scenario.restingPair 0 1 Advanced.STIFFNESS
  = Some Scenario.restLink
  /\ Advanced.relaxAll (T:=float) ([Scenario.restLink], Scenario.restingPair)
     = ([Advanced.tear Scenario.restLink], Scenario.restingPair).
Proof. vm_compute. split; reflexivity. Qed.

(** ** Fixed particles *)

Section FixedParticles.
Context {T : Type} `{Number T}.
Local Open Scope js_scope.

Section AdvancedEngine.
Import Advanced.

Lemma satisfy_held c vs j v : held vs j v -> held (satisfy c vs).2 j v.
Proof.
  intros [Hj Hv]. split; [|exact Hv]. unfold satisfy.
  destruct (active c); [|exact Hj]. cbn [negb].
  destruct (vs !! v1 c) as [a|] eqn:Ha; [|exact Hj].
  destruct (vs !! v2 c) as [b|] eqn:Hb; [|exact Hj].
  cbv zeta.
  match goal with |- context [if ?t then (tear c, vs) else _] =>
    destruct t; [exact Hj|] end.
  match goal with |- context [if ?t then (c, vs) else _] =>
    destruct t; [exact Hj|] end.
  cbn [snd].
  assert (H1 : (if negb (isFixed a) && negb (pinned a)
                then alter (fun v0 => setPosition
                         (THREE.sub (position v0)
                            (THREE.multiplyScalar
                               (THREE.multiplyScalar (THREE.sub (position b) (position a))
                                  ((restLength c - THREE.length (THREE.sub (position b) (position a))) /
                                   THREE.length (THREE.sub (position b) (position a)) * stiffness c * lit 5 10))
                               (mass b / (mass a + mass b)))) v0) (v1 c) vs
                else vs) !! j = Some v).
  { destruct (negb (isFixed a) && negb (pinned a)) eqn:Fa; [|exact Hj].
    rewrite list_lookup_alter_ne; [exact Hj|].
    intros E. rewrite E, Hj in Ha. injection Ha as ->. unfold free in Hv. congruence. }
  destruct (negb (isFixed b) && negb (pinned b)) eqn:Fb; [|exact H1].
  rewrite list_lookup_alter_ne; [exact H1|].
  intros E. rewrite E, Hj in Hb. injection Hb as ->. unfold free in Hv. congruence.
Qed.

Lemma relax_held k cv j v : held cv.2 j v -> held (relax k cv).2 j v.
Proof.
  intros Hh. unfold relax. destruct (cv.1 !! k) as [c|]; [|exact Hh].
  destruct (active c); [|exact Hh]. cbn [snd]. apply satisfy_held, Hh.
Qed.

Lemma solver_held n cv j v :
  held cv.2 j v -> held (Nat.iter n relaxAll cv).2 j v.
Proof.
  apply (iter_invariant (fun cv => held cv.2 j v)).
  intros s Hs. unfold relaxAll.
  apply (forEach_invariant (fun cv => held cv.2 j v)); [|exact Hs].
  intros i s'. apply relax_held.
Qed.

Lemma update_held dt vs j v : held vs j v -> held (update dt <$> vs) j v.
Proof.
  intros [Hj Hv]. split; [|exact Hv].
  rewrite list_lookup_fmap, Hj. cbn. f_equal.
  apply advanced_update_skips, Hv.
Qed.

Variables Math_sin Math_cos : T -> T.

Lemma applyForces_held props time s count i vs j v :
  (count mod 3 =? 0)%nat = false ->
  held vs j v -> held (applyForces Math_sin Math_cos props time s count i vs) j v.
Proof.
  intros Hc [Hj Hv]. split; [|exact Hv]. unfold applyForces.
  destruct (vs !! i) as [vertex|] eqn:Hi; [|exact Hj].
  destruct (isFixed vertex || pinned vertex) eqn:Fi; [exact Hj|].
  cbv zeta. rewrite Hc.
  rewrite list_lookup_insert_ne; [exact Hj|].
  intros E. rewrite E, Hj in Hi. injection Hi as ->.
  unfold free in Hv. destruct (isFixed vertex), (pinned vertex); discriminate.
Qed.

(** On a frame without self-collision (frame count not a multiple of 3) no
    fixed or pinned particle of the advanced engine changes at all. *)
Lemma fixed_particle_stays_without_self_collision props frame st j v :
  (S (frameCount st) mod 3 =? 0)%nat = false ->
  vertices st !! j = Some v -> free v = false ->
  vertices (useFrame Math_sin Math_cos props frame st) !! j = Some v.
Proof.
  intros Hc Hj Hv. unfold useFrame.
  destruct (meshMounted frame); cbn [negb]; [|exact Hj]. cbv zeta.
  cbn [vertices].
  apply solver_held. cbn [snd]. apply update_held.
  apply (forEach_invariant (fun vs => held vs j v)); [|split; assumption].
  intros i s. apply applyForces_held, Hc.
Qed.
End AdvancedEngine.

Section BasicEngine.
Import Basic.

Lemma basic_satisfy_held c vs j v : held vs j v -> held (satisfy c vs) j v.
Proof.
  intros [Hj Hv]. split; [|exact Hv]. unfold satisfy, satisfyWith.
  destruct (vs !! v1 c) as [a|] eqn:Ha; [|exact Hj].
  destruct (vs !! v2 c) as [b|] eqn:Hb; [|exact Hj].
  cbv zeta.
  match goal with |- context [if ?t then vs else _] =>
    destruct t; [exact Hj|] end.
  match goal with |- context [if negb (isFixed b) then alter ?f ?i ?l else ?l] =>
    assert (H1 : l !! j = Some v)
  end.
  { destruct (isFixed a) eqn:Fa; [exact Hj|]. cbn [negb].
    rewrite list_lookup_alter_ne; [exact Hj|].
    intros E. rewrite E, Hj in Ha. injection Ha as ->. congruence. }
  destruct (isFixed b) eqn:Fb; [exact H1|]. cbn [negb].
  rewrite list_lookup_alter_ne; [exact H1|].
  intros E. rewrite E, Hj in Hb. injection Hb as ->. congruence.
Qed.

Variables Math_sin Math_cos : T -> T.

(** No frame of the basic engine changes a fixed particle. *)
Lemma basic_fixed_particle_stays props frame st j v :
  vertices st !! j = Some v -> isFixed v = true ->
  vertices (useFrame Math_sin Math_cos props frame st) !! j = Some v.
Proof.
  intros Hj Hv. unfold useFrame.
  destruct (meshMounted frame); cbn [negb]; [|exact Hj]. cbv zeta.
  cbn [vertices].
  apply (iter_invariant (fun vs => held vs j v)).
  - intros vs Hvs. unfold relaxAll. revert vs Hvs.
    induction (constraints st) as [|c cs IH]; intros vs Hvs; [exact Hvs|].
    cbn [fold_left]. apply IH, basic_satisfy_held, Hvs.
  - split; [|exact Hv]. rewrite !list_lookup_fmap, Hj. cbn. f_equal.
    unfold applyForces, update. rewrite Hv. rewrite Hv. reflexivity.
Qed.
End BasicEngine.
End FixedParticles.

(** C1 at a failing input (binary64, any [Math.sin] and [Math.cos]).  On a
    frame whose count is a multiple of 3, the self-collision loop of the free
    particle 0 reaches particle 10, which is fixed and [0.0625] away: the
    pair is pushed apart and the fixed particle leaves the origin. *)
Theorem self_collision_moves_fixed_particle
    (Math_sin Math_cos : float -> float) :
  let st := Scenario.crowdedState (T:=float) in
  let st' :=
    Advanced.useFrame Math_sin Math_cos Scenario.tearingOff
      (Scenario.frameAt (lit 1 1)) st in
  Advanced.vertices st !! 10%nat = Some Scenario.anchor
  /\ Advanced.isFixed (Scenario.anchor (T:=float)) = true
  /\ Advanced.position (Scenario.anchor (T:=float))
     = THREE.mk (lit 0 1) (lit 0 1) (lit 0 1)
  /\ Advanced.vertices st' !! 10%nat
     = Some (Advanced.setPosition
               (THREE.mk (lit 0 1 - (lit 1 10 - lit 625 10000) * lit 5 10)%js
                         (lit 0 1) (lit 0 1))
               Scenario.anchor)
  /\ (lit (T:=float) 0 1 - (lit 1 10 - lit 625 10000) * lit 5 10
      < lit 0 1)%js = true.
Proof. vm_compute. repeat split. Qed.

(** ** Loops with their index, and the grid *)

(** ** Loops, with the index *)

Lemma forEach_S {S : Type} (n : nat) (f : nat -> S -> S) (s : S) :
  forEach (Datatypes.S n) f s = f n (forEach n f s).
Proof.
  unfold forEach. rewrite seq_S, fold_left_app. reflexivity.
Qed.

Lemma forEach_indexed {S : Type} (P : nat -> S -> Prop)
    (n : nat) (f : nat -> S -> S) (s : S) :
  (forall i s, i < n -> P i s -> P (Datatypes.S i) (f i s)) ->
  P 0 s -> P n (forEach n f s).
Proof.
  intros Hf H0. induction n as [|n IH]; [exact H0|].
  rewrite forEach_S. apply Hf; [lia|]. apply IH.
  intros i s' Hi. apply Hf. lia.
Qed.

Lemma forEach_bounded {S : Type} (P : S -> Prop)
    (n : nat) (f : nat -> S -> S) (s : S) :
  (forall i s, i < n -> P s -> P (f i s)) -> P s -> P (forEach n f s).
Proof.
  intros Hf H0. apply (forEach_indexed (fun _ => P)); auto.
Qed.

(** ** The grid *)

Section Grid.
Context {A : Type}.

Lemma buildGrid_filled segX segY (cell : nat -> nat -> nat -> A) :
  filled (S segX) cell (S segY) (buildGrid segX segY cell).
Proof.
  unfold buildGrid.
  apply (forEach_indexed (filled (S segX) cell)).
  2:{ split; [reflexivity|]. intros; lia. }
  intros y arr Hy [Hlen Hrows].
  (* the row *)
  assert (Hrow :
    forall m, m <= S segX ->
      let r := forEach m (fun x arr => arr ++ [cell (List.length arr) x y]) arr in
      List.length r = y * S segX + m
      /\ (forall i, i < y * S segX -> r !! i = arr !! i)
      /\ (forall x, x < m -> r !! (y * S segX + x) = Some (cell (y * S segX + x) x y))).
  { intros m Hm. cbv zeta.
    apply (forEach_indexed
             (fun m r => List.length r = y * S segX + m
                /\ (forall i, i < y * S segX -> r !! i = arr !! i)
                /\ (forall x, x < m -> r !! (y * S segX + x) = Some (cell (y * S segX + x) x y)))).
    - intros x r Hx (Hl & Hold & Hnew). repeat split.
      + rewrite length_app. cbn. lia.
      + intros i Hi. rewrite lookup_app_l by lia. apply Hold, Hi.
      + intros x' Hx'. destruct (decide (x' = x)) as [->|Hne].
        * rewrite lookup_app_r by lia. rewrite Hl.
          replace (y * S segX + x - (y * S segX + x)) with 0 by lia. reflexivity.
        * rewrite lookup_app_l by lia. apply Hnew. lia.
    - repeat split; [lia|]. intros; lia. }
  destruct (Hrow (S segX) (le_n _)) as (Hl & Hold & Hnew).
  split; [lia|].
  intros x y' Hx Hy'. destruct (decide (y' = y)) as [->|Hne].
  - apply Hnew, Hx.
  - rewrite Hold by nia. apply Hrows; lia.
Qed.

Lemma buildGrid_length segX segY (cell : nat -> nat -> nat -> A) :
  List.length (buildGrid segX segY cell) = S segX * S segY.
Proof. destruct (buildGrid_filled segX segY cell) as [-> _]. lia. Qed.

Lemma buildGrid_lookup segX segY (cell : nat -> nat -> nat -> A) x y :
  x <= segX -> y <= segY ->
  buildGrid segX segY cell !! (y * (segX + 1) + x)
  = Some (cell (y * (segX + 1) + x) x y).
Proof.
  intros Hx Hy. destruct (buildGrid_filled segX segY cell) as [_ Hr].
  replace (segX + 1) with (S segX) by lia. apply Hr; lia.
Qed.

End Grid.

(** ** The fresh cloth: vertices *)

(** every element of the grid is the cell of some column and row *)
Lemma buildGrid_cell {A : Type} segX segY (cell : nat -> nat -> nat -> A) k v :
  buildGrid segX segY cell !! k = Some v ->
  exists x y, x <= segX /\ y <= segY /\ k = y * (segX + 1) + x /\ v = cell k x y.
Proof.
  intros Hk. pose proof (lookup_lt_Some _ _ _ Hk) as Hlt.
  rewrite buildGrid_length in Hlt.
  exists (k mod S segX), (k / S segX).
  assert (Hx : k mod S segX < S segX) by (apply Nat.mod_upper_bound; lia).
  assert (Hdm : k = S segX * (k / S segX) + k mod S segX) by (apply Nat.div_mod_eq).
  assert (Hy : k / S segX < S segY).
  { apply Nat.Div0.div_lt_upper_bound. lia. }
  assert (Hidx : k = k / S segX * (segX + 1) + k mod S segX) by lia.
  repeat split; try lia.
  pose proof (buildGrid_lookup segX segY cell (k mod S segX) (k / S segX)
                ltac:(lia) ltac:(lia)) as Hl.
  rewrite <- Hidx in Hl. congruence.
Qed.

Section Layout.
Context {T : Type} `{Number T}.

(** X1. The vertex arrays of both engines are laid out row after row: a
    grid of [segX] by [segY] cells has [(segX + 1) * (segY + 1)] vertices,
    and the vertex of column [x] and row [y] is at index
    [y * (segX + 1) + x]; in the advanced engine its mass comes from the
    call of [Math.random()] of that index. *)
Theorem grid_layout (segX segY : nat) (random : nat -> T) (x y : nat) :
  x <= segX -> y <= segY ->
  List.length (Advanced.initVerticesWith segX segY random)
  = (segX + 1) * (segY + 1)
  /\ Advanced.initVerticesWith segX segY random !! (y * (segX + 1) + x)
     = Some (Advanced.gridVertex segX segY (random (y * (segX + 1) + x)) x y)
  /\ List.length (Basic.initVerticesWith (T:=T) segX segY)
     = (segX + 1) * (segY + 1)
  /\ Basic.initVerticesWith segX segY !! (y * (segX + 1) + x)
     = Some (Basic.gridVertex segX segY x y).
Proof.
  intros Hx Hy. unfold Advanced.initVerticesWith, Basic.initVerticesWith.
  rewrite !buildGrid_length. rewrite !buildGrid_lookup by assumption.
  repeat split; lia.
Qed.

(** X2. The anchors of a fresh cloth.  In the advanced engine the vertex
    at index [k] is fixed exactly when it is in the first row and its
    column is 0, [segX] or a multiple of 6, and it is pinned exactly when it
    is fixed; in the basic engine it is fixed exactly when it is in the
    first row and its column is a multiple of 5.  Every vertex starts at
    rest: old position equal to position, nothing accumulated. *)
Theorem grid_anchors (segX segY : nat) (random : nat -> T) (k : nat) v w :
  Advanced.initVerticesWith segX segY random !! k = Some v ->
  Basic.initVerticesWith segX segY !! k = Some w ->
  (Advanced.isFixed v = true
   <-> k <= segX /\ (k = 0 \/ k = segX \/ k mod 6 = 0))
  /\ Advanced.pinned v = Advanced.isFixed v
  /\ (Basic.isFixed w = true <-> k <= segX /\ k mod 5 = 0)
  /\ Advanced.oldPosition v = Advanced.position v
  /\ Basic.oldPosition w = Basic.position w
  /\ Advanced.acceleration v = THREE.mk (lit 0 1) (lit 0 1) (lit 0 1)
  /\ Basic.acceleration w = THREE.mk (lit 0 1) (lit 0 1) (lit 0 1).
Proof.
  intros Hv Hw.
  apply buildGrid_cell in Hv as (x & y & Hx & Hy & Hk & ->).
  apply buildGrid_cell in Hw as (x' & y' & Hx' & Hy' & Hk' & ->).
  assert (y' = y /\ x' = x) as [-> ->].
  { apply (Nat.div_mod_unique (segX + 1)); lia. }
  unfold Advanced.gridVertex, Basic.gridVertex. cbn -[Nat.modulo].
  rewrite !andb_true_iff, !orb_true_iff, !Nat.eqb_eq.
  assert (Hrow : y = 0 <-> k <= segX) by nia.
  assert (Hcol : y = 0 -> x = k) by (intros ->; lia).
  split; [|split; [reflexivity|split; [|repeat split]]].
  - split.
    + intros [Hy0 Hc]. rewrite <- (Hcol Hy0). tauto.
    + intros [Hle Hc]. apply Hrow in Hle. rewrite (Hcol Hle). tauto.
  - split.
    + intros [Hy0 Hc]. rewrite <- (Hcol Hy0). tauto.
    + intros [Hle Hc]. apply Hrow in Hle. rewrite (Hcol Hle). tauto.
Qed.

End Layout.

(** X3. In exact arithmetic, with [Math.random()] in [[0, 1)], every
    particle of a fresh advanced cloth has a mass in [[0.8, 1.2)]: masses
    are positive. *)
Theorem grid_masses (segX segY : nat) (random : nat -> R) (k : nat) v :
  (forall n, 0 <= random n < 1)%R ->
  Advanced.initVerticesWith segX segY random !! k = Some v ->
  (8 / 10 <= Advanced.mass v < 12 / 10)%R.
Proof.
  intros Hr Hv. apply buildGrid_cell in Hv as (x & y & Hx & Hy & Hk & ->).
  unfold Advanced.gridVertex. cbn. specialize (Hr k). lra.
Qed.

(** ** The fresh cloth: links *)

Section BuiltLinks.
Context {T : Type} `{Number T}.
Import Advanced.
Implicit Types (v : AdvancedVerletVertex T) (vs : list (AdvancedVerletVertex T)).
Implicit Types (c : AdvancedVerletConstraint T).

Lemma push_built vs i j s cs :
  i < j < List.length vs -> built vs cs -> built vs (push vs i j s cs).
Proof.
  intros [Hij Hj] (l & -> & Hl). unfold push, newConstraint.
  destruct (lookup_lt_is_Some_2 vs i) as [a Ha]; [lia|].
  destruct (lookup_lt_is_Some_2 vs j) as [b Hb]; [lia|].
  rewrite Ha, Hb. eexists. split; [reflexivity|].
  apply Forall_app. split; [exact Hl|]. apply Forall_singleton.
  unfold wellFormed, gap. cbn. rewrite Ha, Hb. auto.
Qed.

Lemma linksAt_built vs segX segY x y cs :
  List.length vs = S segX * S segY -> x <= segX -> y <= segY ->
  built vs cs -> built vs (linksAt vs segX segY x y cs).
Proof.
  intros Hlen Hx Hy Hcs. unfold linksAt. cbv zeta.
  assert (Hrow : (y + 1) * S segX <= S segX * S segY) by nia.
  repeat match goal with
  | |- built vs (if ?b then _ else _) => destruct b eqn:?
  | |- built vs (push _ _ _ _ _) => apply push_built
  end; try assumption;
  repeat match goal with
  | E : (_ && _) = true |- _ => apply andb_true_iff in E; destruct E
  | E : (_ <? _) = true |- _ => apply Nat.ltb_lt in E
  end; try nia.
Qed.

Lemma initConstraints_built segX segY random :
  built (initVerticesWith segX segY random)
        (initConstraintsWith segX segY (initVerticesWith segX segY random)).
Proof.
  set (vs := initVerticesWith segX segY random).
  assert (Hlen : List.length vs = S segX * S segY) by apply buildGrid_length.
  unfold initConstraintsWith.
  apply forEach_bounded; [|exists []; split; [reflexivity|constructor]].
  intros y cs Hy Hcs.
  apply forEach_bounded; [|exact Hcs].
  intros x cs' Hx Hcs'. apply linksAt_built; auto; lia.
Qed.
End BuiltLinks.

Section BasicLinks.
Context {T : Type} `{Number T}.

Lemma basic_push_built vs i j cs :
  i < j < List.length vs -> basicBuilt vs cs -> basicBuilt vs (Basic.push vs i j cs).
Proof.
  intros [Hij Hj] (l & -> & Hl). unfold Basic.push, Basic.newConstraint.
  destruct (lookup_lt_is_Some_2 vs i) as [a Ha]; [lia|].
  destruct (lookup_lt_is_Some_2 vs j) as [b Hb]; [lia|].
  rewrite Ha, Hb. eexists. split; [reflexivity|].
  apply Forall_app. split; [exact Hl|]. apply Forall_singleton.
  unfold basicWellFormed, Basic.gap. cbn. rewrite Ha, Hb. auto.
Qed.

Lemma basic_linksAt_built vs segX segY x y cs :
  List.length vs = S segX * S segY -> x <= segX -> y <= segY ->
  basicBuilt vs cs -> basicBuilt vs (Basic.linksAt vs segX segY x y cs).
Proof.
  intros Hlen Hx Hy Hcs. unfold Basic.linksAt. cbv zeta.
  assert (Hrow : (y + 1) * S segX <= S segX * S segY) by nia.
  repeat match goal with
  | |- basicBuilt vs (if ?b then _ else _) => destruct b eqn:?
  | |- basicBuilt vs (Basic.push _ _ _ _) => apply basic_push_built
  end; try assumption;
  repeat match goal with
  | E : (_ && _) = true |- _ => apply andb_true_iff in E; destruct E
  | E : (_ <? _) = true |- _ => apply Nat.ltb_lt in E
  end; try nia.
Qed.

Lemma basic_initConstraints_built segX segY :
  basicBuilt (Basic.initVerticesWith segX segY)
    (Basic.initConstraintsWith segX segY (Basic.initVerticesWith segX segY)).
Proof.
  set (vs := Basic.initVerticesWith segX segY).
  assert (Hlen : List.length vs = S segX * S segY) by apply buildGrid_length.
  unfold Basic.initConstraintsWith.
  apply forEach_bounded; [|exists []; split; [reflexivity|constructor]].
  intros y cs Hy Hcs.
  apply forEach_bounded; [|exact Hcs].
  intros x cs' Hx Hcs'. apply basic_linksAt_built; auto; lia.
Qed.

(** X4. Neither initialisation throws, for any grid size: the constraint
    constructor is only ever given two vertices of the array.  Every link
    built joins a particle to one of larger index, and its rest length is
    the distance between its two particles in the fresh cloth; the links of
    the advanced engine start active. *)
Theorem cloth_is_built (segX segY : nat) (random : nat -> T) :
  built (Advanced.initVerticesWith segX segY random)
        (Advanced.initConstraintsWith segX segY
           (Advanced.initVerticesWith segX segY random))
  /\ basicBuilt (Basic.initVerticesWith segX segY)
       (Basic.initConstraintsWith segX segY (Basic.initVerticesWith segX segY))
  /\ is_Some (Advanced.initState random)
  /\ is_Some (Basic.initState (T:=T)).
Proof.
  split; [apply initConstraints_built|]. split; [apply basic_initConstraints_built|].
  split.
  - unfold Advanced.initState. cbv zeta.
    destruct (initConstraints_built Advanced.CLOTH_SEGMENTS_X
                Advanced.CLOTH_SEGMENTS_Y random) as (l & E & _).
    unfold Advanced.initConstraints, Advanced.initVertices. rewrite E. eauto.
  - unfold Basic.initState. cbv zeta.
    destruct (basic_initConstraints_built Basic.CLOTH_SEGMENTS_X
                Basic.CLOTH_SEGMENTS_Y) as (l & E & _).
    unfold Basic.initConstraints, Basic.initVertices. rewrite E. eauto.
Qed.
End BasicLinks.

Section GridLinks.
Context {T : Type} `{Number T}.
Import Advanced.
Implicit Types (v : AdvancedVerletVertex T) (vs : list (AdvancedVerletVertex T)).
Implicit Types (c : AdvancedVerletConstraint T).
Local Open Scope js_scope.

Lemma push_elem vs i j s l :
  (i < List.length vs)%nat -> (j < List.length vs)%nat ->
  exists l', push vs i j s (Some l) = Some l'
    /\ forall c, c ∈ l' <-> c ∈ l \/ newConstraint vs i j s = Some c.
Proof.
  intros Hi Hj. unfold push.
  destruct (newConstraint vs i j s) as [c0|] eqn:E.
  - eexists. split; [reflexivity|]. intros c.
    rewrite elem_of_app, list_elem_of_singleton.
    split; (intros [?|?]; [left; assumption|right; congruence]).
  - unfold newConstraint in E.
    destruct (lookup_lt_is_Some_2 vs i Hi) as [a Ha].
    destruct (lookup_lt_is_Some_2 vs j Hj) as [b Hb].
    rewrite Ha, Hb in E. discriminate.
Qed.

Lemma guarded_push (g : bool) vs i j s l :
  (g = true -> (i < List.length vs)%nat /\ (j < List.length vs)%nat) ->
  exists l', (if g then push vs i j s (Some l) else Some l) = Some l'
    /\ forall c, c ∈ l' <-> c ∈ l \/ (g = true /\ newConstraint vs i j s = Some c).
Proof.
  intros Hg. destruct g.
  - destruct (Hg eq_refl) as [Hi Hj].
    destruct (push_elem vs i j s l Hi Hj) as (l' & E & Hl').
    exists l'. split; [exact E|]. intros c. rewrite Hl'. tauto.
  - exists l. split; [reflexivity|]. intros c.
    split; [tauto|]. intros [?|[? _]]; [assumption|discriminate].
Qed.

Lemma linksAt_elem vs segX segY x y l :
  List.length vs = (S segX * S segY)%nat -> (x <= segX)%nat -> (y <= segY)%nat ->
  exists l', linksAt vs segX segY x y (Some l) = Some l'
    /\ forall c, c ∈ l' <-> c ∈ l \/ cellLink vs segX segY x y c.
Proof.
  intros Hlen Hx Hy. unfold linksAt, cellLink. cbv zeta.
  set (index := (y * (segX + 1) + x)%nat).
  assert (Hrow : ((y + 1) * S segX <= S segX * S segY)%nat) by nia.
  destruct (guarded_push (x <? segX)%nat vs index (index + 1)%nat STIFFNESS l)
    as (l1 & -> & H1).
  { intros E%Nat.ltb_lt. unfold index. split; nia. }
  destruct (guarded_push (y <? segY)%nat vs index (index + segX + 1)%nat
                         STIFFNESS l1) as (l2 & -> & H2).
  { intros E%Nat.ltb_lt. unfold index. split; nia. }
  assert (exists l3,
    (if (x <? segX)%nat && (y <? segY)%nat
     then push vs (index + 1)%nat (index + segX + 1)%nat (STIFFNESS * lit 8 10)
            (push vs index (index + segX + 2)%nat (STIFFNESS * lit 8 10)
                  (Some l2))
     else Some l2) = Some l3
    /\ forall c, c ∈ l3 <->
         c ∈ l2
         \/ ((x < segX)%nat /\ (y < segY)%nat
             /\ newConstraint vs index (index + segX + 2)%nat
                              (STIFFNESS * lit 8 10) = Some c)
         \/ ((x < segX)%nat /\ (y < segY)%nat
             /\ newConstraint vs (index + 1)%nat (index + segX + 1)%nat
                              (STIFFNESS * lit 8 10) = Some c))
    as (l3 & -> & H3).
  { destruct ((x <? segX)%nat && (y <? segY)%nat) eqn:E.
    - apply andb_true_iff in E as [Ex%Nat.ltb_lt Ey%Nat.ltb_lt].
      destruct (push_elem vs index (index + segX + 2)%nat
                          (STIFFNESS * lit 8 10) l2) as (la & -> & Ha);
        [unfold index; nia..|].
      destruct (push_elem vs (index + 1)%nat (index + segX + 1)%nat
                          (STIFFNESS * lit 8 10) la) as (lb & -> & Hb);
        [unfold index; nia..|].
      exists lb. split; [reflexivity|]. intros c. rewrite Hb, Ha. tauto.
    - exists l2. split; [reflexivity|]. intros c. split; [tauto|].
      apply andb_false_iff in E.
      rewrite !Nat.ltb_ge in E. intros [?|[(? & ? & _)|(? & ? & _)]];
        [assumption|lia..]. }
  destruct (guarded_push (x <? segX - 1)%nat vs index (index + 2)%nat
                         (STIFFNESS * lit 3 10) l3) as (l4 & -> & H4).
  { intros E%Nat.ltb_lt. unfold index. split; nia. }
  destruct (guarded_push (y <? segY - 1)%nat vs index
                         (index + (segX + 1) * 2)%nat
                         (STIFFNESS * lit 3 10) l4) as (l5 & -> & H5).
  { intros E%Nat.ltb_lt. unfold index. split; nia. }
  exists l5. split; [reflexivity|]. intros c.
  rewrite H5, H4, H3, H2, H1, !Nat.ltb_lt. tauto.
Qed.

(** the links of the cloth are those of its cells, and no others *)
Lemma initConstraints_links segX segY (vs : list (AdvancedVerletVertex T)) :
  List.length vs = (S segX * S segY)%nat ->
  exists l, initConstraintsWith segX segY vs = Some l
    /\ forall c, c ∈ l <-> gridLink vs segX segY c.
Proof.
  intros Hlen. unfold initConstraintsWith.
  pose (Inv := fun (n : nat) (cs : option (list (AdvancedVerletConstraint T))) =>
    exists l, cs = Some l
      /\ forall c, c ∈ l <->
           exists x y, (x <= segX)%nat /\ (y * S segX + x < n)%nat
                       /\ cellLink vs segX segY x y c).
  assert (Hall : Inv (S segY * S segX)%nat
    (forEach (S segY)
       (fun y cs => forEach (S segX) (fun x cs => linksAt vs segX segY x y cs) cs)
       (Some []))).
  { apply (forEach_indexed (fun y => Inv (y * S segX)%nat)).
    - intros y cs Hy Hcs.
      replace (S y * S segX)%nat with (y * S segX + S segX)%nat by lia.
      apply (forEach_indexed (fun x => Inv (y * S segX + x)%nat)).
      + intros x cs' Hx (l & -> & Hl).
        destruct (linksAt_elem vs segX segY x y l Hlen) as (l' & E & Hl');
          [lia..|].
        exists l'. split; [exact E|]. intros c. rewrite Hl', Hl. split.
        * intros [(x' & y' & Hx' & Hlt & Hc)|Hc].
          -- exists x', y'. repeat split; [lia|lia|exact Hc].
          -- exists x, y. repeat split; [lia|lia|exact Hc].
        * intros (x' & y' & Hx' & Hlt & Hc).
          destruct (decide (y' * S segX + x' < y * S segX + x)%nat) as [Hold|Hnew].
          -- left. exists x', y'. auto.
          -- right. assert (y' = y /\ x' = x) as [-> ->]; [|exact Hc].
             apply (Nat.div_mod_unique (S segX)); lia.
      + rewrite Nat.add_0_r. exact Hcs.
    - exists []. split; [reflexivity|]. intros c. split.
      + intros Hc. inversion Hc.
      + intros (x & y & _ & Hlt & _). lia. }
  destruct Hall as (l & E & Hl). exists l. split; [exact E|].
  intros c. rewrite Hl. unfold gridLink. split.
  - intros (x & y & Hx & Hlt & Hc). exists x, y. repeat split; [lia|nia|exact Hc].
  - intros (x & y & Hx & Hy & Hc). exists x, y. repeat split; [lia|nia|exact Hc].
Qed.

End GridLinks.

(** ** Pairs of particles in exact arithmetic *)

Section RealPairs.
Local Open Scope R_scope.

(** ** self-collision *)


Lemma length_sub_sym (p q : THREE.Vector3 R) :
  THREE.length (THREE.sub p q) = THREE.length (THREE.sub q p).
Proof.
  destruct p as [a b c], q as [d e f]. unfold THREE.length, THREE.sub. cbn.
  f_equal. ring.
Qed.


(** X15. In exact arithmetic [satisfy()] on two free particles keeps their
    mass-weighted centre: [m1 p1 + m2 p2] is the same before and after. *)
Theorem satisfy_keeps_centre_of_mass
    (c : Advanced.AdvancedVerletConstraint R) vs a b :
  vs !! Advanced.v1 c = Some a -> vs !! Advanced.v2 c = Some b ->
  Advanced.v1 c <> Advanced.v2 c ->
  Advanced.free a = true -> Advanced.free b = true ->
  Advanced.mass a + Advanced.mass b <> 0 ->
  exists a' b',
    (Advanced.satisfy c vs).2 !! Advanced.v1 c = Some a'
    /\ (Advanced.satisfy c vs).2 !! Advanced.v2 c = Some b'
    /\ THREE.add (THREE.multiplyScalar (Advanced.position a') (Advanced.mass a))
                 (THREE.multiplyScalar (Advanced.position b') (Advanced.mass b))
       = THREE.add (THREE.multiplyScalar (Advanced.position a) (Advanced.mass a))
                   (THREE.multiplyScalar (Advanced.position b) (Advanced.mass b)).
Proof.
  intros Ha Hb Hne Fa Fb Hm.
  destruct (satisfy_vertices c vs a b Ha Hb Fa Fb) as [-> | ->].
  - exists a, b. auto.
  - unfold Advanced.relaxed. cbv zeta. eexists _, _. split; [|split].
    + rewrite list_lookup_alter_ne by auto. rewrite list_lookup_alter_eq, Ha. reflexivity.
    + rewrite list_lookup_alter_eq, list_lookup_alter_ne by auto. rewrite Hb. reflexivity.
    + cbn [Advanced.setPosition Advanced.position].
      generalize (Advanced.offset c a b). intros [o1 o2 o3].
      destruct (Advanced.position a) as [a1 a2 a3], (Advanced.position b) as [b1 b2 b3].
      unfold THREE.sub, THREE.add, THREE.multiplyScalar. cbn. f_equal; field; exact Hm.
Qed.

End RealPairs.

Section RealLinks.
Local Open Scope R_scope.

Lemma basic_satisfy_freePair (s : R) (c : Basic.VerletConstraint R) vs d :
  Basic.v1 c <> Basic.v2 c ->
  0 <= s <= 1 -> 0 <= Basic.restLength c -> 0 < d ->
  freePair vs (Basic.v1 c) (Basic.v2 c) d ->
  freePair (Basic.satisfyWith s c vs) (Basic.v1 c) (Basic.v2 c)
           (d - (d - Basic.restLength c) * s).
Proof.
  intros Hne Hs HL Hd (a & b & Ha & Hb & Fa & Fb & Hab).
  pose proof (basic_satisfy_gap s c vs a b Ha Hb Hne Fa Fb) as Hgap.
  cbv zeta in Hgap. rewrite Hab in Hgap. specialize (Hgap Hd Hs HL).
  unfold Basic.gap in Hgap.
  unfold Basic.satisfyWith in *. rewrite Ha, Hb in *. cbv zeta in *.
  rewrite Hab in *.
  change (neqb d (lit 0 1)) with (Reqb d (0 / 1)) in *.
  rewrite Reqb_false in * by lra. rewrite Fa, Fb in *. cbn [negb] in *.
  rewrite list_lookup_alter_ne in Hgap by auto.
  rewrite list_lookup_alter_eq, Ha in Hgap.
  rewrite list_lookup_alter_eq, list_lookup_alter_ne in Hgap by auto.
  rewrite Hb in Hgap. cbn [fmap option_fmap option_map] in Hgap.
  injection Hgap as Hgap.
  eexists _, _. split; [|split; [|split; [|split]]].
  - rewrite list_lookup_alter_ne by auto. rewrite list_lookup_alter_eq, Ha. reflexivity.
  - rewrite list_lookup_alter_eq, list_lookup_alter_ne by auto. rewrite Hb. reflexivity.
  - exact Fa.
  - exact Fb.
  - rewrite <- Hgap. exact (length_sub_sym _ _).
Qed.

(** X17. Relaxation of the basic engine, in exact arithmetic: each call
    of [satisfy()] on two free particles multiplies the error of their
    distance by [1 - STIFFNESS]; after [n] calls the distance is
    [L + (1 - STIFFNESS)^n (d - L)], for any stiffness between 0 and 1. *)
Theorem basic_relaxation_converges (s : R) (c : Basic.VerletConstraint R) vs d n :
  Basic.v1 c <> Basic.v2 c ->
  0 <= s <= 1 -> 0 < Basic.restLength c -> 0 < d ->
  freePair vs (Basic.v1 c) (Basic.v2 c) d ->
  freePair (Nat.iter n (Basic.satisfyWith s c) vs) (Basic.v1 c) (Basic.v2 c)
           (Basic.restLength c + (1 - s) ^ n * (d - Basic.restLength c)).
Proof.
  intros Hne Hs HL Hd Hp. induction n as [|n IH].
  - cbn. replace (Basic.restLength c + 1 * (d - Basic.restLength c)) with d by ring.
    exact Hp.
  - cbn [Nat.iter nat_rect]. change (nat_rect _ vs _ n) with (Nat.iter n (Basic.satisfyWith s c) vs).
    set (L := Basic.restLength c) in *.
    set (dn := L + (1 - s) ^ n * (d - L)) in *.
    assert (Hpow : 0 <= (1 - s) ^ n <= 1).
    { split; [apply pow_le; lra|].
      assert (H1 : (1 - s) ^ n <= 1 ^ n) by (apply pow_incr; lra).
      rewrite pow1 in H1. exact H1. }
    assert (Hdn : 0 < dn).
    { unfold dn. replace (L + (1 - s) ^ n * (d - L))
        with ((1 - s) ^ n * d + (1 - (1 - s) ^ n) * L) by ring.
      destruct (Req_dec ((1 - s) ^ n) 0) as [E|E].
      - rewrite E. lra.
      - assert (0 < (1 - s) ^ n * d) by (apply Rmult_lt_0_compat; lra).
        assert (0 <= (1 - (1 - s) ^ n) * L) by (apply Rmult_le_pos; lra). lra. }
    replace (L + (1 - s) ^ S n * (d - L)) with (dn - (dn - L) * s)
      by (unfold dn; cbn [pow]; ring).
    apply basic_satisfy_freePair; auto; try lra.
    fold L. lra.
Qed.

(** ** a link at rest *)

Lemma rest_length_between (c : Advanced.AdvancedVerletConstraint R) vs a b :
  vs !! Advanced.v1 c = Some a -> vs !! Advanced.v2 c = Some b ->
  Advanced.gap vs (Advanced.v1 c) (Advanced.v2 c) = Some (Advanced.restLength c) ->
  THREE.length (THREE.sub (Advanced.position b) (Advanced.position a))
  = Advanced.restLength c.
Proof.
  intros Ha Hb Hgap. unfold Advanced.gap in Hgap. rewrite Ha, Hb in Hgap.
  injection Hgap as Hgap. rewrite <- Hgap. exact (length_sub_sym _ _).
Qed.

Lemma satisfy_rest_long (c : Advanced.AdvancedVerletConstraint R) vs :
  Advanced.active c = true ->
  Advanced.gap vs (Advanced.v1 c) (Advanced.v2 c) = Some (Advanced.restLength c) ->
  1 / 10 < Advanced.restLength c ->
  Advanced.satisfy c vs = (Advanced.tear c, vs).
Proof.
  intros Hact Hgap HL. pose proof Hgap as Hg. unfold Advanced.gap in Hg.
  destruct (vs !! Advanced.v1 c) as [a|] eqn:Ha; [|discriminate].
  destruct (vs !! Advanced.v2 c) as [b|] eqn:Hb; [|discriminate].
  apply (satisfy_tears c vs a b Hact Ha Hb).
  - rewrite (rest_length_between c vs a b Ha Hb Hgap). apply Rltb_true. cbn. lra.
  - apply Rltb_true. cbn. lra.
Qed.

Lemma satisfy_rest_short (c : Advanced.AdvancedVerletConstraint R) vs :
  Advanced.active c = true ->
  Advanced.gap vs (Advanced.v1 c) (Advanced.v2 c) = Some (Advanced.restLength c) ->
  0 < Advanced.restLength c <= 1 / 10 ->
  Advanced.satisfy c vs = (c, vs).
Proof.
  intros Hact Hgap [HL0 HL]. pose proof Hgap as Hg. unfold Advanced.gap in Hg.
  destruct (vs !! Advanced.v1 c) as [a|] eqn:Ha; [|discriminate].
  destruct (vs !! Advanced.v2 c) as [b|] eqn:Hb; [|discriminate].
  pose proof (rest_length_between c vs a b Ha Hb Hgap) as Hd.
  unfold Advanced.satisfy. rewrite Hact, Ha, Hb. cbn [negb]. cbv zeta.
  rewrite Hd.
  change (nltb (lit 1 10) (Advanced.restLength c))
    with (Rltb (1 / 10) (Advanced.restLength c)).
  rewrite (Rltb_false (1 / 10)) by lra. rewrite andb_false_r.
  change (neqb (Advanced.restLength c) (lit 0 1))
    with (Reqb (Advanced.restLength c) (0 / 1)).
  rewrite Reqb_false by lra. f_equal.
  set (off := THREE.multiplyScalar
                (THREE.sub (Advanced.position b) (Advanced.position a)) _).
  assert (Hoff : forall m, THREE.multiplyScalar off m = THREE.mk 0 0 0).
  { intros m. unfold off. rewrite multiplyScalar_twice.
    destruct (THREE.sub (Advanced.position b) (Advanced.position a)) as [x y z].
    unfold THREE.multiplyScalar. cbn. f_equal; unfold Rdiv; ring. }
  rewrite !Hoff.
  assert (Hsub : forall u : Advanced.AdvancedVerletVertex R,
            Advanced.setPosition
              (THREE.sub (Advanced.position u) (THREE.mk 0 0 0)) u = u).
  { intros [[x y z] o acc f m p]. unfold Advanced.setPosition, THREE.sub. cbn.
    do 2 f_equal; ring. }
  assert (Hadd : forall u : Advanced.AdvancedVerletVertex R,
            Advanced.setPosition
              (THREE.add (Advanced.position u) (THREE.mk 0 0 0)) u = u).
  { intros [[x y z] o acc f m p]. unfold Advanced.setPosition, THREE.add. cbn.
    do 2 f_equal; ring. }
  assert (Hid : forall (g : Advanced.AdvancedVerletVertex R -> _) k
                       (l : list (Advanced.AdvancedVerletVertex R)),
            (forall u, g u = u) -> alter g k l = l).
  { intros g k l Hgu. apply list_eq. intros i.
    destruct (decide (k = i)) as [->|Hne].
    - rewrite list_lookup_alter_eq. destruct (l !! i); cbn; [rewrite Hgu|]; reflexivity.
    - rewrite list_lookup_alter_ne by auto. reflexivity. }
  destruct (negb (Advanced.isFixed a) && negb (Advanced.pinned a)),
           (negb (Advanced.isFixed b) && negb (Advanced.pinned b));
    rewrite ?(Hid _ _ _ Hadd), ?(Hid _ _ _ Hsub); reflexivity.
Qed.

(** X16. [satisfy()] of the advanced engine on an active link whose
    particles are exactly at its rest length, in exact arithmetic: if the
    rest length is above [0.1] the link is torn and nothing moves; if it is
    at most [0.1] nothing changes at all. *)
Theorem satisfy_at_rest (c : Advanced.AdvancedVerletConstraint R) vs :
  Advanced.active c = true ->
  Advanced.gap vs (Advanced.v1 c) (Advanced.v2 c) = Some (Advanced.restLength c) ->
  (1 / 10 < Advanced.restLength c ->
   Advanced.satisfy c vs = (Advanced.tear c, vs))
  /\ (0 < Advanced.restLength c <= 1 / 10 -> Advanced.satisfy c vs = (c, vs)).
Proof.
  intros Hact Hgap. split.
  - apply satisfy_rest_long; assumption.
  - apply satisfy_rest_short; assumption.
Qed.

End RealLinks.

(** ** The links of the 30 x 30 cloth *)

Section RealGrid.
Local Open Scope R_scope.

Lemma num_real (n : nat) : num (T:=R) n = INR n.
Proof. unfold num. cbn. rewrite <- INR_IZR_INZ. lra. Qed.

(** the distance between two vertices of the fresh grid *)
Lemma grid_distance (segX segY : nat) (r r' : R) (x y x' y' : nat) :
  THREE.distanceTo
    (Advanced.position (Advanced.gridVertex segX segY r x y))
    (Advanced.position (Advanced.gridVertex segX segY r' x' y'))
  = R_sqrt.sqrt
      (((INR x - INR x') * (25 / 10 / INR segX))
       * ((INR x - INR x') * (25 / 10 / INR segX))
       + ((INR y - INR y') * (25 / 10 / INR segY))
         * ((INR y - INR y') * (25 / 10 / INR segY))).
Proof.
  unfold Advanced.gridVertex, THREE.distanceTo, THREE.distanceToSquared.
  cbn -[INR num]. rewrite !num_real. f_equal.
  change (Advanced.CLOTH_WIDTH) with (25 / 10).
  change (Advanced.CLOTH_HEIGHT) with (25 / 10). unfold Rdiv. ring.
Qed.

(** a link made between two vertices of the fresh grid *)
Lemma newConstraint_grid (segX segY : nat) (random : nat -> R)
    (x y x' y' : nat) s c :
  (x <= segX)%nat -> (y <= segY)%nat -> (x' <= segX)%nat -> (y' <= segY)%nat ->
  Advanced.newConstraint (Advanced.initVerticesWith segX segY random)
                         (y * (segX + 1) + x) (y' * (segX + 1) + x') s = Some c ->
  Advanced.stiffness c = s
  /\ Advanced.active c = true
  /\ Advanced.gap (Advanced.initVerticesWith segX segY random)
                  (Advanced.v1 c) (Advanced.v2 c)
     = Some (Advanced.restLength c)
  /\ Advanced.restLength c
     = R_sqrt.sqrt
         (((INR x - INR x') * (25 / 10 / INR segX))
          * ((INR x - INR x') * (25 / 10 / INR segX))
          + ((INR y - INR y') * (25 / 10 / INR segY))
            * ((INR y - INR y') * (25 / 10 / INR segY))).
Proof.
  intros Hx Hy Hx' Hy' Hc. unfold Advanced.newConstraint in Hc.
  pose proof (buildGrid_lookup segX segY
                (fun k x y => Advanced.gridVertex segX segY (random k) x y)
                x y Hx Hy) as Ha.
  pose proof (buildGrid_lookup segX segY
                (fun k x y => Advanced.gridVertex segX segY (random k) x y)
                x' y' Hx' Hy') as Hb.
  unfold Advanced.gap. unfold Advanced.initVerticesWith in *.
  rewrite Ha, Hb in Hc. injection Hc as <-.
  cbn [Advanced.stiffness Advanced.active Advanced.v1
       Advanced.v2 Advanced.restLength].
  rewrite Ha, Hb. repeat split. apply (grid_distance segX segY 0 0).
Qed.

Lemma sqrt_sq (a : R) : 0 <= a -> R_sqrt.sqrt (a * a + 0) = a.
Proof. intros Ha. rewrite Rplus_0_r. apply sqrt_square, Ha. Qed.

Lemma cell_size (n : nat) : (0 < n)%nat -> 0 < 25 / 10 / INR n.
Proof.
  intros Hn. apply Rdiv_lt_0_compat; [lra|]. apply lt_0_INR. exact Hn.
Qed.

(** the rest lengths of the links of a fresh cloth, by kind: [w] and [h]
    are the width and the height of a cell *)
Lemma grid_link_lengths (segX segY : nat) (random : nat -> R) :
  let vs := Advanced.initVerticesWith segX segY random in
  let w := 25 / 10 / INR segX in
  let h := 25 / 10 / INR segY in
  exists cs,
    Advanced.initConstraintsWith segX segY vs = Some cs
    /\ ((0 < segX)%nat -> (0 < segY)%nat ->
        exists c, c ∈ cs /\ Advanced.v1 c = 0%nat
                  /\ Advanced.v2 c = (segX + 2)%nat
                  /\ Advanced.stiffness c = Advanced.STIFFNESS * (8 / 10))
    /\ forall c, c ∈ cs ->
         Advanced.active c = true
         /\ Advanced.gap vs (Advanced.v1 c) (Advanced.v2 c)
            = Some (Advanced.restLength c)
         /\ ((Advanced.stiffness c = Advanced.STIFFNESS
              /\ (Advanced.restLength c = w \/ Advanced.restLength c = h))
             \/ (Advanced.stiffness c = Advanced.STIFFNESS * (8 / 10)
                 /\ Advanced.restLength c = R_sqrt.sqrt (w * w + h * h))
             \/ (Advanced.stiffness c = Advanced.STIFFNESS * (3 / 10)
                 /\ (Advanced.restLength c = 2 * w
                     \/ Advanced.restLength c = 2 * h))).
Proof.
  intros vs w h.
  destruct (initConstraints_links segX segY vs) as (cs & E & Hcs).
  { apply buildGrid_length. }
  exists cs. split; [exact E|]. split.
  { intros HX HY.
    assert (Hlen : List.length vs = (S segX * S segY)%nat)
      by apply buildGrid_length.
    destruct (lookup_lt_is_Some_2 vs 0) as [a Ha]; [lia|].
    destruct (lookup_lt_is_Some_2 vs (segX + 2)) as [b Hb]; [nia|].
    eexists (Advanced.mkConstraint 0 (segX + 2) _ _ true).
    split; [|cbn; auto].
    apply Hcs. exists 0%nat, 0%nat. split; [lia|]. split; [lia|].
    right. right. left. split; [exact HX|]. split; [exact HY|].
    unfold Advanced.newConstraint. cbn [Nat.mul Nat.add].
    rewrite Ha, Hb. reflexivity. }
  intros c Hc. apply Hcs in Hc as (x & y & Hx & Hy & Hc).
  unfold cellLink in Hc. cbv zeta in Hc.
  destruct Hc as [[Hg Hc]|[[Hg Hc]|[(Hg & Hg' & Hc)|[(Hg & Hg' & Hc)
                 |[[Hg Hc]|[Hg Hc]]]]]].
  - replace (y * (segX + 1) + x + 1)%nat
      with (y * (segX + 1) + (x + 1))%nat in Hc by lia.
    apply newConstraint_grid in Hc as (Hs & Hact & Hgap & Hr); try lia.
    repeat split; auto. left. split; [exact Hs|]. left. rewrite Hr.
    pose proof (cell_size segX ltac:(lia)). fold w in H |- *.
    rewrite plus_INR. cbn [INR].
    replace ((INR x - (INR x + 1)) * w * ((INR x - (INR x + 1)) * w)
             + (INR y - INR y) * (25 / 10 / INR segY)
               * ((INR y - INR y) * (25 / 10 / INR segY)))
      with (w * w + 0) by ring.
    apply sqrt_sq. lra.
  - replace (y * (segX + 1) + x + segX + 1)%nat
      with ((y + 1) * (segX + 1) + x)%nat in Hc by lia.
    apply newConstraint_grid in Hc as (Hs & Hact & Hgap & Hr); try lia.
    repeat split; auto. left. split; [exact Hs|]. right. rewrite Hr.
    pose proof (cell_size segY ltac:(lia)). fold h in H |- *.
    rewrite plus_INR. cbn [INR].
    replace ((INR x - INR x) * (25 / 10 / INR segX)
             * ((INR x - INR x) * (25 / 10 / INR segX))
             + (INR y - (INR y + 1)) * h * ((INR y - (INR y + 1)) * h))
      with (h * h + 0) by ring.
    apply sqrt_sq. lra.
  - replace (y * (segX + 1) + x + segX + 2)%nat
      with ((y + 1) * (segX + 1) + (x + 1))%nat in Hc by lia.
    apply newConstraint_grid in Hc as (Hs & Hact & Hgap & Hr); try lia.
    repeat split; auto. right. left. split; [exact Hs|]. rewrite Hr.
    fold w h. rewrite !plus_INR. cbn [INR]. f_equal. ring.
  - replace (y * (segX + 1) + x + 1)%nat
      with (y * (segX + 1) + (x + 1))%nat in Hc by lia.
    replace (y * (segX + 1) + x + segX + 1)%nat
      with ((y + 1) * (segX + 1) + x)%nat in Hc by lia.
    apply newConstraint_grid in Hc as (Hs & Hact & Hgap & Hr); try lia.
    repeat split; auto. right. left. split; [exact Hs|]. rewrite Hr.
    fold w h. rewrite !plus_INR. cbn [INR]. f_equal. ring.
  - replace (y * (segX + 1) + x + 2)%nat
      with (y * (segX + 1) + (x + 2))%nat in Hc by lia.
    apply newConstraint_grid in Hc as (Hs & Hact & Hgap & Hr); try lia.
    repeat split; auto. right. right. split; [exact Hs|]. left. rewrite Hr.
    pose proof (cell_size segX ltac:(lia)). fold w in H |- *.
    rewrite plus_INR. change (INR 2) with 2.
    replace ((INR x - (INR x + 2)) * w * ((INR x - (INR x + 2)) * w)
             + (INR y - INR y) * (25 / 10 / INR segY)
               * ((INR y - INR y) * (25 / 10 / INR segY)))
      with ((2 * w) * (2 * w) + 0) by ring.
    apply sqrt_sq. lra.
  - replace (y * (segX + 1) + x + (segX + 1) * 2)%nat
      with ((y + 2) * (segX + 1) + x)%nat in Hc by lia.
    apply newConstraint_grid in Hc as (Hs & Hact & Hgap & Hr); try lia.
    repeat split; auto. right. right. split; [exact Hs|]. right. rewrite Hr.
    pose proof (cell_size segY ltac:(lia)). fold h in H |- *.
    rewrite plus_INR. change (INR 2) with 2.
    replace ((INR x - INR x) * (25 / 10 / INR segX)
             * ((INR x - INR x) * (25 / 10 / INR segX))
             + (INR y - (INR y + 2)) * h * ((INR y - (INR y + 2)) * h))
      with ((2 * h) * (2 * h) + 0) by ring.
    apply sqrt_sq. lra.
Qed.

Lemma sqrt_2_long : 1 / 10 < R_sqrt.sqrt (1 / 12 * (1 / 12) + 1 / 12 * (1 / 12)).
Proof.
  rewrite <- (sqrt_square (1 / 10)) at 1 by lra. apply sqrt_lt_1_alt. lra.
Qed.

(** X5. The links of the fresh 30 x 30 advanced cloth, in exact
    arithmetic.  A structural link (stiffness [STIFFNESS]) has rest length
    [1/12], and [satisfy()] on the fresh cloth leaves it and the particles
    as they are.  Every other link (shear or bend) has a rest length above
    [0.1], so that [satisfy()] on the fresh cloth tears it and moves
    nothing, whatever [enableTearing] is; there are such links. *)
Theorem fresh_cloth_links (random : nat -> R) :
  exists cs,
    Advanced.initConstraints (Advanced.initVertices random) = Some cs
    /\ (exists c, c ∈ cs /\ Advanced.v1 c = 0%nat /\ Advanced.v2 c = 32%nat
                  /\ Advanced.stiffness c = Advanced.STIFFNESS * (8 / 10))
    /\ forall c, c ∈ cs ->
         (Advanced.stiffness c = Advanced.STIFFNESS
          /\ Advanced.restLength c = 1 / 12
          /\ Advanced.satisfy c (Advanced.initVertices random)
             = (c, Advanced.initVertices random))
         \/ (Advanced.stiffness c <> Advanced.STIFFNESS
             /\ 1 / 10 < Advanced.restLength c
             /\ Advanced.satisfy c (Advanced.initVertices random)
                = (Advanced.tear c, Advanced.initVertices random)).
Proof.
  change (Advanced.initVertices random)
    with (Advanced.initVerticesWith 30 30 random).
  destruct (grid_link_lengths 30 30 random) as (cs & E & Hsome & Hcs).
  assert (Hw : 25 / 10 / INR 30 = 1 / 12).
  { replace (INR 30) with 30 by (cbn; lra). lra. }
  exists cs. split; [exact E|]. split.
  { destruct Hsome as (c & Hc); [lia..|]. exists c. exact Hc. }
  intros c Hc. destruct (Hcs c Hc) as (Hact & Hgap & Hkind).
  rewrite Hw in Hkind.
  destruct Hkind as [[Hs Hr]|[[Hs Hr]|[Hs Hr]]].
  - left. split; [exact Hs|]. assert (Hr' : Advanced.restLength c = 1 / 12) by tauto.
    split; [exact Hr'|]. apply satisfy_rest_short; auto. rewrite Hr'. lra.
  - right. assert (HL : 1 / 10 < Advanced.restLength c).
    { rewrite Hr. apply sqrt_2_long. }
    split; [|split; [exact HL|apply satisfy_rest_long; auto]].
    rewrite Hs. unfold Advanced.STIFFNESS. cbn. lra.
  - right. assert (HL : 1 / 10 < Advanced.restLength c) by (destruct Hr as [-> | ->]; lra).
    split; [|split; [exact HL|apply satisfy_rest_long; auto]].
    rewrite Hs. unfold Advanced.STIFFNESS. cbn. lra.
Qed.

End RealGrid.

(** The same count in binary64, masses apart: the 30 x 30 cloth has 961
    particles and 5458 links; the 1860 structural links have a rest length
    of at most [0.1], and the other 3598 a rest length above [0.1]. *)
Example fresh_cloth_binary64 :
  match Advanced.initState (T:=float) (fun _ => lit 5 10) with
  | Some st =>
      let long c := (lit 1 10 < Advanced.restLength c)%js in
      let structural c := (Advanced.stiffness c === Advanced.STIFFNESS)%js in
      let count f := N.of_nat (List.length (List.filter f (Advanced.constraints st))) in
      (N.of_nat (List.length (Advanced.vertices st)),
       count (fun _ => true), count structural,
       count (fun c => structural c && long c),
       count (fun c => negb (structural c) && negb (long c)))
  | None => (0, 0, 0, 0, 0)%N
  end = (961, 5458, 1860, 0, 0)%N.
Proof. vm_compute. reflexivity. Qed.

(** ** The mesh *)

(** X6. The index buffer of a grid of [segX] by [segY] cells has six
    entries per cell (two triangles), and every entry is the index of a
    vertex of the grid. *)
Theorem faces_are_well_formed (segX segY : nat) :
  List.length (faceIndices segX segY) = 6 * segX * segY
  /\ Forall (fun i => i < (segX + 1) * (segY + 1)) (faceIndices segX segY).
Proof.
  unfold faceIndices.
  apply (forEach_indexed
           (fun y l => List.length l = 6 * segX * y
                       /\ Forall (fun i => i < (segX + 1) * (segY + 1)) l)).
  2:{ split; [cbn; lia|constructor]. }
  intros y l Hy [Hlen Hall].
  replace (6 * segX * S y) with (6 * segX * y + 6 * segX) by lia.
  apply (forEach_indexed
           (fun x l => List.length l = 6 * segX * y + 6 * x
                       /\ Forall (fun i => i < (segX + 1) * (segY + 1)) l)).
  2:{ split; [lia|exact Hall]. }
  intros x l' Hx [Hlen' Hall']. cbv zeta. split.
  - rewrite !length_app. cbn. lia.
  - assert (Hrow : (y + 1) * (segX + 1) + (segX + 1) <= (segX + 1) * (segY + 1)) by nia.
    repeat (apply Forall_app; split); [exact Hall'|..];
      repeat constructor; nia.
Qed.

Section Geometry.
Context {T : Type} `{Number T}.
Variable Math_fround : T -> T.

(** the copy loop, for any kind of vertex *)
Lemma copy_positions {V : Type} (pos : V -> THREE.Vector3 T) (vs : list V)
    (positions : list T) :
  let p := forEach (List.length vs)
    (fun i positions =>
       match vs !! i with
       | Some vertex =>
           <[i * 3 + 2 := Math_fround (THREE.z (pos vertex))]>
             (<[i * 3 + 1 := Math_fround (THREE.y (pos vertex))]>
                (<[i * 3 := Math_fround (THREE.x (pos vertex))]> positions))
       | None => positions
       end) positions in
  List.length p = List.length positions
  /\ (forall i r v, r < 3 -> i * 3 + r < List.length positions ->
        vs !! i = Some v ->
        p !! (i * 3 + r) = Some (Math_fround (component r (pos v))))
  /\ (forall k, List.length vs * 3 <= k -> p !! k = positions !! k).
Proof.
  cbv zeta.
  assert (Hall : forall n, n <= List.length vs ->
    let p := forEach n
      (fun i positions =>
         match vs !! i with
         | Some vertex =>
             <[i * 3 + 2 := Math_fround (THREE.z (pos vertex))]>
               (<[i * 3 + 1 := Math_fround (THREE.y (pos vertex))]>
                  (<[i * 3 := Math_fround (THREE.x (pos vertex))]> positions))
         | None => positions
         end) positions in
    List.length p = List.length positions
    /\ (forall i r v, i < n -> r < 3 -> i * 3 + r < List.length positions ->
          vs !! i = Some v ->
          p !! (i * 3 + r) = Some (Math_fround (component r (pos v))))
    /\ (forall k, n * 3 <= k -> p !! k = positions !! k)).
  { intros n Hn. cbv zeta.
    apply (forEach_indexed
      (fun n p => List.length p = List.length positions
        /\ (forall i r v, i < n -> r < 3 -> i * 3 + r < List.length positions ->
              vs !! i = Some v ->
              p !! (i * 3 + r) = Some (Math_fround (component r (pos v))))
        /\ (forall k, n * 3 <= k -> p !! k = positions !! k))).
    2:{ repeat split; intros; lia. }
    intros i p Hi (Hlen & Hdone & Hrest).
    destruct (lookup_lt_is_Some_2 vs i) as [v Hv]; [lia|]. rewrite Hv.
    split; [rewrite !length_insert; exact Hlen|]. split.
    - intros i' r v' Hi' Hr Hk Hv'.
      destruct (decide (i' = i)) as [->|Hne].
      + assert (v' = v) as -> by congruence.
        destruct r as [|[|[|r]]]; [| | |lia]; cbn [component].
        * rewrite Nat.add_0_r.
          rewrite list_lookup_insert_ne by lia.
          rewrite list_lookup_insert_ne by lia.
          apply list_lookup_insert_eq. lia.
        * rewrite list_lookup_insert_ne by lia.
          apply list_lookup_insert_eq. rewrite length_insert. lia.
        * apply list_lookup_insert_eq. rewrite !length_insert. lia.
      + rewrite !list_lookup_insert_ne by lia. apply Hdone; auto. lia.
    - intros k Hk. rewrite !list_lookup_insert_ne by lia. apply Hrest. lia. }
  destruct (Hall (List.length vs) (le_n _)) as (Hlen & Hdone & Hrest).
  split; [exact Hlen|]. split; [|exact Hrest].
  intros i r v Hr Hk Hv. apply Hdone; auto. eapply lookup_lt_Some, Hv.
Qed.

(** X7. After the copy of the advanced engine, the position buffer has
    its length unchanged, holds at [3 i], [3 i + 1] and [3 i + 2] the
    coordinates of the position of particle [i], rounded to single
    precision, wherever these offsets are inside the buffer, and is
    unchanged beyond the last particle. *)
Theorem positions_follow_the_particles
    (vs : list (Advanced.AdvancedVerletVertex T)) (positions : list T) :
  List.length (Advanced.writePositions Math_fround vs positions)
  = List.length positions
  /\ (forall i r v, r < 3 -> i * 3 + r < List.length positions ->
        vs !! i = Some v ->
        Advanced.writePositions Math_fround vs positions !! (i * 3 + r)
        = Some (Math_fround (component r (Advanced.position v))))
  /\ (forall k, List.length vs * 3 <= k ->
        Advanced.writePositions Math_fround vs positions !! k
        = positions !! k).
Proof. exact (copy_positions Advanced.position vs positions). Qed.

(** X8. Both engines copy the positions into the buffer at the end of
    every frame, whatever the frame count: the test around the copy is
    [frameCount % 1 === 0], which always holds.  The buffer then holds the
    rounded coordinates of every particle. *)
Theorem geometry_synced_every_frame (frameCount : nat)
    (vs : list (Advanced.AdvancedVerletVertex T))
    (ws : list (Basic.VerletVertex T)) (positions : list T) :
  Advanced.syncPositions Math_fround frameCount vs positions
  = Advanced.writePositions Math_fround vs positions
  /\ Basic.syncPositions Math_fround frameCount ws positions
     = Basic.writePositions Math_fround ws positions
  /\ List.length (Basic.syncPositions Math_fround frameCount ws positions)
     = List.length positions
  /\ (forall i r v, r < 3 -> i * 3 + r < List.length positions ->
        ws !! i = Some v ->
        Basic.syncPositions Math_fround frameCount ws positions !! (i * 3 + r)
        = Some (Math_fround (component r (Basic.position v)))).
Proof.
  assert (E : Basic.syncPositions Math_fround frameCount ws positions
              = Basic.writePositions Math_fround ws positions).
  { unfold Basic.syncPositions. rewrite Nat.mod_1_r. reflexivity. }
  split.
  { unfold Advanced.syncPositions. rewrite Nat.mod_1_r. reflexivity. }
  rewrite E. split; [reflexivity|].
  destruct (copy_positions Basic.position ws positions) as (Hlen & Hdone & _).
  split; [exact Hlen|exact Hdone].
Qed.

End Geometry.

(** ** What a frame keeps *)

Section Shape.
Context {T : Type} `{Number T}.
Import Advanced.
Implicit Types (v : AdvancedVerletVertex T) (vs : list (AdvancedVerletVertex T)).
Implicit Types (c : AdvancedVerletConstraint T).
Implicit Types (cs : list (AdvancedVerletConstraint T)).
Implicit Types
  (cv : list (AdvancedVerletConstraint T) * list (AdvancedVerletVertex T)).
Local Open Scope js_scope.

Lemma sameParticle_refl v : sameParticle v v.
Proof. repeat split. Qed.

Lemma sameParticle_trans v v' v'' :
  sameParticle v v' -> sameParticle v' v'' -> sameParticle v v''.
Proof. intros (a & b & c) (d & e & f). repeat split; congruence. Qed.

Lemma sameParticles_refl vs : sameParticles vs vs.
Proof. apply Forall2_same_length_lookup. split; [reflexivity|]. intros i x y Hx Hy. rewrite Hx in Hy. injection Hy as <-. apply sameParticle_refl. Qed.

Lemma sameParticles_trans vs vs' vs'' :
  sameParticles vs vs' -> sameParticles vs' vs'' -> sameParticles vs vs''.
Proof.
  unfold sameParticles. intros H1 H2.
  eapply Forall2_trans; [|exact H1|exact H2]. intros; eapply sameParticle_trans; eauto.
Qed.

Lemma sameParticles_alter f i vs :
  (forall v, sameParticle v (f v)) -> sameParticles vs (alter f i vs).
Proof.
  intros Hf. apply Forall2_same_length_lookup. split; [rewrite length_alter; reflexivity|].
  intros j x y Hx Hy. destruct (decide (i = j)) as [->|Hne].
  - rewrite list_lookup_alter_eq, Hx in Hy. injection Hy as <-. apply Hf.
  - rewrite list_lookup_alter_ne, Hx in Hy by auto. injection Hy as <-. apply sameParticle_refl.
Qed.

Lemma sameParticles_insert i v v' vs :
  vs !! i = Some v -> sameParticle v v' -> sameParticles vs (<[i := v']> vs).
Proof.
  intros Hi Hv. apply Forall2_same_length_lookup. split; [rewrite length_insert; reflexivity|].
  intros j x y Hx Hy. destruct (decide (i = j)) as [->|Hne].
  - rewrite list_lookup_insert_eq in Hy by (eapply lookup_lt_Some; eauto).
    injection Hy as <-. rewrite Hi in Hx. injection Hx as <-. exact Hv.
  - rewrite list_lookup_insert_ne, Hx in Hy by auto. injection Hy as <-. apply sameParticle_refl.
Qed.

Lemma sameParticles_fmap f vs :
  (forall v, sameParticle v (f v)) -> sameParticles vs (f <$> vs).
Proof.
  intros Hf. apply Forall2_same_length_lookup. split; [rewrite length_fmap; reflexivity|].
  intros j x y Hx Hy. rewrite list_lookup_fmap, Hx in Hy. injection Hy as <-. apply Hf.
Qed.

Lemma sameLink_refl c : sameLink c c.
Proof. left; reflexivity. Qed.

Lemma sameLink_trans c c' c'' : sameLink c c' -> sameLink c' c'' -> sameLink c c''.
Proof.
  intros [->| ->] [->| ->]; unfold sameLink; auto.
Qed.

Lemma sameLinks_refl cs : sameLinks cs cs.
Proof. apply Forall2_same_length_lookup. split; [reflexivity|]. intros i x y Hx Hy. rewrite Hx in Hy. injection Hy as <-. apply sameLink_refl. Qed.

Lemma sameLinks_trans cs cs' cs'' :
  sameLinks cs cs' -> sameLinks cs' cs'' -> sameLinks cs cs''.
Proof.
  unfold sameLinks. intros H1 H2.
  eapply Forall2_trans; [|exact H1|exact H2]. intros; eapply sameLink_trans; eauto.
Qed.

Lemma update_same dt v : sameParticle v (update dt v).
Proof. unfold update. destruct (isFixed v || pinned v); repeat split. Qed.

Lemma addForce_same f v : sameParticle v (addForce f v).
Proof. unfold addForce. destruct (negb (isFixed v) && negb (pinned v)); repeat split. Qed.

Lemma sphereCollision_same s v : sameParticle v (sphereCollision s v).
Proof.
  unfold sphereCollision. cbv zeta.
  repeat match goal with |- context [if ?b then _ else _] => destruct b end; repeat split.
Qed.

Lemma setPosition_same p v : sameParticle v (setPosition p v).
Proof. repeat split. Qed.

Lemma satisfy_same c vs :
  sameLink c (satisfy c vs).1 /\ sameParticles vs (satisfy c vs).2.
Proof.
  unfold satisfy.
  destruct (active c); cbn [negb]; [|split; [apply sameLink_refl|apply sameParticles_refl]].
  destruct (vs !! v1 c) as [a|]; [|split; [apply sameLink_refl|apply sameParticles_refl]].
  destruct (vs !! v2 c) as [b|]; [|split; [apply sameLink_refl|apply sameParticles_refl]].
  cbv zeta.
  match goal with |- context [if ?t then (tear c, vs) else _] =>
    destruct t; [split; [right; reflexivity|apply sameParticles_refl]|] end.
  match goal with |- context [if ?t then (c, vs) else _] =>
    destruct t; [split; [apply sameLink_refl|apply sameParticles_refl]|] end.
  split; [apply sameLink_refl|]. cbn [snd].
  destruct (negb (isFixed a) && negb (pinned a)), (negb (isFixed b) && negb (pinned b)).
  - eapply sameParticles_trans; apply sameParticles_alter; intros; apply setPosition_same.
  - apply sameParticles_alter; intros; apply setPosition_same.
  - apply sameParticles_alter; intros; apply setPosition_same.
  - apply sameParticles_refl.
Qed.

Lemma sameLinks_insert k c c' cs :
  cs !! k = Some c -> sameLink c c' -> sameLinks cs (<[k := c']> cs).
Proof.
  intros Hi Hv. apply Forall2_same_length_lookup. split; [rewrite length_insert; reflexivity|].
  intros j x y Hx Hy. destruct (decide (k = j)) as [->|Hne].
  - rewrite list_lookup_insert_eq in Hy by (eapply lookup_lt_Some; eauto).
    injection Hy as <-. rewrite Hi in Hx. injection Hx as <-. exact Hv.
  - rewrite list_lookup_insert_ne, Hx in Hy by auto. injection Hy as <-. apply sameLink_refl.
Qed.

Lemma relax_same k cv0 cv : sameCloth cv0 cv -> sameCloth cv0 (relax k cv).
Proof.
  intros [Hc Hv]. unfold relax.
  destruct (cv.1 !! k) as [c|] eqn:Hk; [|split; assumption].
  destruct (active c); [|split; assumption].
  destruct (satisfy_same c cv.2) as [Hl Hp]. split; cbn [fst snd].
  - eapply sameLinks_trans; [exact Hc|]. eapply sameLinks_insert; eauto.
  - eapply sameParticles_trans; eauto.
Qed.

Lemma solver_same n cv : sameCloth cv (Nat.iter n relaxAll cv).
Proof.
  apply (iter_invariant (sameCloth cv)).
  - intros s Hs. unfold relaxAll. apply forEach_invariant; [|exact Hs].
    intros i s'. apply relax_same.
  - split; [apply sameLinks_refl|apply sameParticles_refl].
Qed.

Lemma selfCollide_same i j vs : sameParticles vs (selfCollide i j vs).
Proof.
  unfold selfCollide.
  destruct (vs !! i); [|apply sameParticles_refl].
  destruct (vs !! j); [|apply sameParticles_refl].
  cbv zeta. match goal with |- context [if ?t then _ else _] => destruct t end;
    [|apply sameParticles_refl].
  eapply sameParticles_trans; apply sameParticles_alter; intros; apply setPosition_same.
Qed.

Lemma selfCollision_same i vs : sameParticles vs (selfCollision i vs).
Proof.
  unfold selfCollision. generalize (strided (i + 10) 15 (List.length vs)). intros l.
  assert (Hg : forall vs', sameParticles vs vs' ->
             sameParticles vs (fold_left (fun vs j => selfCollide i j vs) l vs')).
  { induction l as [|j l IH]; intros vs' Hvs'; [exact Hvs'|].
    cbn [fold_left]. apply IH. eapply sameParticles_trans; [exact Hvs'|apply selfCollide_same]. }
  apply Hg, sameParticles_refl.
Qed.

Variables Math_sin Math_cos : T -> T.

Lemma applyForces_same props time s count i vs :
  sameParticles vs (applyForces Math_sin Math_cos props time s count i vs).
Proof.
  unfold applyForces. destruct (vs !! i) as [v|] eqn:Hi; [|apply sameParticles_refl].
  destruct (isFixed v || pinned v); [apply sameParticles_refl|]. cbv zeta.
  match goal with |- context [<[i := ?w]> vs] =>
    assert (Hw : sameParticles vs (<[i := w]> vs)) end.
  { eapply sameParticles_insert; [exact Hi|].
    eapply sameParticle_trans; [apply addForce_same|].
    eapply sameParticle_trans; [apply addForce_same|].
    destruct (showSphere props); [apply sphereCollision_same|apply sameParticle_refl]. }
  destruct (_ =? 0)%nat; [|exact Hw].
  eapply sameParticles_trans; [exact Hw|apply selfCollision_same].
Qed.

Lemma tearCheck_same vs c : sameLink c (tearCheck vs c).
Proof. destruct (tearCheck_cases vs c) as [->|[-> _]]; [left|right]; reflexivity. Qed.

Lemma useFrame_same props frame st :
  let st' := useFrame Math_sin Math_cos props frame st in
  sameParticles (vertices st) (vertices st')
  /\ sameLinks (constraints st) (constraints st').
Proof.
  cbv zeta. unfold useFrame.
  destruct (meshMounted frame); cbn [negb];
    [|split; [apply sameParticles_refl|apply sameLinks_refl]].
  cbv zeta. cbn [vertices constraints].
  match goal with |- context [Nat.iter iterations relaxAll ?cv] =>
    pose proof (solver_same iterations cv) as [Hl Hp];
    assert (Hv : sameParticles (vertices st) cv.2);
    [|generalize dependent (Nat.iter iterations relaxAll cv)]
  end.
  { cbn [snd]. eapply sameParticles_trans;
      [|apply sameParticles_fmap; intros; apply update_same].
    apply (forEach_invariant (sameParticles (vertices st))); [|apply sameParticles_refl].
    intros i s Hs. eapply sameParticles_trans; [exact Hs|apply applyForces_same]. }
  intros cv' Hl Hp. cbn [fst snd] in *. split.
  - eapply sameParticles_trans; eauto.
  - destruct (_ && _); [|exact Hl].
    eapply sameLinks_trans; [exact Hl|].
    apply Forall2_same_length_lookup. split; [rewrite length_fmap; reflexivity|].
    intros j x y Hx Hy. rewrite list_lookup_fmap, Hx in Hy. injection Hy as <-.
    apply tearCheck_same.
Qed.

(** X9. Over any run of frames of the advanced engine the cloth keeps its
    shape: the same number of particles, each with the [isFixed] flag, the
    [pinned] flag and the mass it had; the same number of constraints, each
    either as it was or torn (so with the same two particles, rest length
    and stiffness).  Nothing is ever pinned, unpinned or mended. *)
Theorem frames_keep_shape inputs st :
  sameParticles (vertices st) (vertices (frames Math_sin Math_cos inputs st))
  /\ sameLinks (constraints st)
               (constraints (frames Math_sin Math_cos inputs st)).
Proof.
  unfold frames. revert st.
  induction inputs as [|input inputs IH]; intros st; cbn [fold_left].
  - split; [apply sameParticles_refl|apply sameLinks_refl].
  - destruct (useFrame_same input.1 input.2 st) as [Hp Hl].
    destruct (IH (useFrame Math_sin Math_cos input.1 input.2 st)) as [Hp' Hl'].
    split; [eapply sameParticles_trans|eapply sameLinks_trans]; eauto.
Qed.

End Shape.

Section Invariants.
Context {T : Type} `{Number T}.
Import Advanced.
Implicit Types (v : AdvancedVerletVertex T) (vs : list (AdvancedVerletVertex T)).
Implicit Types (c : AdvancedVerletConstraint T).
Implicit Types (cs : list (AdvancedVerletConstraint T)).
Implicit Types
  (cv : list (AdvancedVerletConstraint T) * list (AdvancedVerletVertex T)).
Local Open Scope js_scope.

Lemma settled_alter_position g i vs :
  settled vs -> settled (alter (fun v => setPosition (g v) v) i vs).
Proof.
  intros Hs j v Hj Hv. destruct (decide (i = j)) as [->|Hne].
  - rewrite list_lookup_alter_eq in Hj. destruct (vs !! j) as [w|] eqn:Hw; [|discriminate].
    injection Hj as <-. apply (Hs j w Hw). exact Hv.
  - rewrite list_lookup_alter_ne in Hj by auto. eapply Hs; eauto.
Qed.

Lemma satisfy_settled c vs : settled vs -> settled (satisfy c vs).2.
Proof.
  intros Hs. unfold satisfy.
  destruct (active c); cbn [negb]; [|exact Hs].
  destruct (vs !! v1 c) as [a|]; [|exact Hs].
  destruct (vs !! v2 c) as [b|]; [|exact Hs].
  cbv zeta.
  match goal with |- context [if ?t then (tear c, vs) else _] =>
    destruct t; [exact Hs|] end.
  match goal with |- context [if ?t then (c, vs) else _] =>
    destruct t; [exact Hs|] end.
  cbn [snd].
  destruct (negb (isFixed a) && negb (pinned a)), (negb (isFixed b) && negb (pinned b));
    repeat apply settled_alter_position; exact Hs.
Qed.

Lemma solver_settled n cv : settled cv.2 -> settled (Nat.iter n relaxAll cv).2.
Proof.
  apply (iter_invariant (fun cv => settled cv.2)).
  intros s Hs. unfold relaxAll.
  apply (forEach_invariant (fun cv => settled cv.2)); [|exact Hs].
  intros k s' Hs'. unfold relax.
  destruct (s'.1 !! k) as [c|]; [|exact Hs'].
  destruct (active c); [|exact Hs']. cbn [snd]. apply satisfy_settled, Hs'.
Qed.

Lemma update_settled dt vs : settled (update dt <$> vs).
Proof.
  intros j v Hj Hv. rewrite list_lookup_fmap in Hj.
  destruct (vs !! j) as [w|]; [|discriminate]. injection Hj as <-.
  unfold update in *. unfold free in Hv.
  destruct (isFixed w || pinned w) eqn:E; [|reflexivity].
  destruct (isFixed w), (pinned w); discriminate.
Qed.

Variables Math_sin Math_cos : T -> T.

(** X10. After a frame of the advanced engine with the mesh mounted, no
    free particle has any force left accumulated: whatever was added
    during the frame has been consumed by [update]. *)
Theorem frame_resets_acceleration props frame st j v :
  meshMounted frame = true ->
  vertices (useFrame Math_sin Math_cos props frame st) !! j = Some v ->
  free v = true ->
  acceleration v = THREE.mk (lit 0 1) (lit 0 1) (lit 0 1).
Proof.
  intros Hm. unfold useFrame. rewrite Hm. cbn [negb]. cbv zeta. cbn [vertices].
  apply solver_settled. cbn [snd]. apply update_settled.
Qed.

(** X11. A frame seen while the mesh is not mounted changes nothing, not
    even the frame counter: a run gives the state that its mounted frames
    alone give, and the counter advances by their number. *)
Theorem unmounted_frames_are_skipped inputs st :
  frames Math_sin Math_cos inputs st
  = frames Math_sin Math_cos (mounted inputs) st
  /\ frameCount (frames Math_sin Math_cos inputs st)
     = (frameCount st + List.length (mounted inputs))%nat.
Proof.
  unfold frames, mounted. revert st.
  induction inputs as [|[props frame] inputs IH]; intros st; cbn [fold_left].
  - split; [reflexivity|cbn; lia].
  - rewrite filter_cons. cbn [snd fst].
    destruct (decide (meshMounted frame = true)) as [Hm|Hm].
    + cbn [fold_left fst snd]. destruct (IH (useFrame Math_sin Math_cos props frame st)) as [-> ->].
      split; [reflexivity|]. unfold useFrame. rewrite Hm. cbn. lia.
    + assert (E : useFrame Math_sin Math_cos props frame st = st).
      { unfold useFrame. destruct (meshMounted frame); [congruence|reflexivity]. }
      rewrite E. apply IH.
Qed.

End Invariants.

Section Anchors.
Context {T : Type} `{Number T}.
Import Advanced.
Implicit Types (v : AdvancedVerletVertex T) (vs : list (AdvancedVerletVertex T)).
Implicit Types (c : AdvancedVerletConstraint T).
Local Open Scope js_scope.

Lemma elem_of_strided j start stride n :
  j ∈ strided start stride n -> (start <= j)%nat /\ ((j - start) mod stride = 0)%nat.
Proof.
  unfold strided. rewrite list_elem_of_filter, elem_of_seq. intros [Hm [Hs _]]. auto.
Qed.

Lemma selfCollide_other i j' j vs :
  j <> i -> j <> j' -> selfCollide i j' vs !! j = vs !! j.
Proof.
  intros Hi Hj. unfold selfCollide.
  destruct (vs !! i); [|reflexivity]. destruct (vs !! j'); [|reflexivity].
  cbv zeta. match goal with |- context [if ?t then _ else _] => destruct t end;
    [|reflexivity].
  rewrite !list_lookup_alter_ne by auto. reflexivity.
Qed.

Lemma selfCollision_other i j vs :
  j <> i -> ~ reaches i j -> selfCollision i vs !! j = vs !! j.
Proof.
  intros Hi Hr. unfold selfCollision.
  assert (Hl : forall j', j' ∈ strided (i + 10) 15 (List.length vs) -> j <> j').
  { intros j' Hj' ->. apply Hr. apply elem_of_strided in Hj'. exact Hj'. }
  revert Hl. generalize (strided (i + 10) 15 (List.length vs)). intros l.
  revert vs. induction l as [|j' l IH]; intros vs Hl; [reflexivity|].
  cbn [fold_left]. rewrite IH.
  - apply selfCollide_other; [exact Hi|]. apply Hl. left.
  - intros j'' Hj''. apply Hl. right. exact Hj''.
Qed.

Lemma sameParticles_free (vs vs' : list (AdvancedVerletVertex T)) i a' :
  sameParticles vs vs' -> vs' !! i = Some a' ->
  exists a, vs !! i = Some a /\ free a = free a'.
Proof.
  intros Hs Hi. destruct (Forall2_lookup_r _ _ _ _ _ Hs Hi) as (a & Ha & (E1 & E2 & _)).
  exists a. split; [exact Ha|]. unfold free. rewrite E1, E2. reflexivity.
Qed.

Variables Math_sin Math_cos : T -> T.

Lemma applyForces_sheltered props time s count i vs0 vs j v :
  sheltered vs0 j -> sameParticles vs0 vs -> held vs j v ->
  held (applyForces Math_sin Math_cos props time s count i vs) j v.
Proof.
  intros Hsh Hsame [Hj Hv]. split; [|exact Hv]. unfold applyForces.
  destruct (vs !! i) as [vertex|] eqn:Hi; [|exact Hj].
  destruct (isFixed vertex || pinned vertex) eqn:Fi; [exact Hj|].
  assert (Ffree : free vertex = true).
  { unfold free. destruct (isFixed vertex), (pinned vertex); try discriminate. reflexivity. }
  assert (Hne : j <> i).
  { intros ->. rewrite Hj in Hi. injection Hi as ->. congruence. }
  cbv zeta.
  destruct (_ =? 0)%nat.
  - rewrite selfCollision_other; [rewrite list_lookup_insert_ne by auto; exact Hj|exact Hne|].
    intros Hr. destruct (sameParticles_free _ _ _ _ Hsame Hi) as (a & Ha & Hf).
    rewrite (Hsh i a Hr Ha) in Hf. congruence.
  - rewrite list_lookup_insert_ne by auto. exact Hj.
Qed.

Lemma useFrame_sheltered props frame st j v :
  sheltered (vertices st) j -> held (vertices st) j v ->
  held (vertices (useFrame Math_sin Math_cos props frame st)) j v.
Proof.
  intros Hsh Hh. unfold useFrame.
  destruct (meshMounted frame); cbn [negb]; [|exact Hh]. cbv zeta.
  cbn [vertices].
  apply solver_held. cbn [snd]. apply update_held.
  apply (forEach_invariant
           (fun vs => sameParticles (vertices st) vs /\ held vs j v));
    [|split; [apply sameParticles_refl|exact Hh]].
  intros i s [Hs Hhs]. split.
  - eapply sameParticles_trans; [exact Hs|apply applyForces_same].
  - eapply applyForces_sheltered; eauto.
Qed.

(** X12. A fixed or pinned particle of the advanced engine that the
    self-collision loop of no free particle reaches (none at an index
    [j - 10 - 15 k]) keeps its position, its old position and everything
    else over any run of frames. *)
Theorem sheltered_particle_never_moves inputs st j v :
  vertices st !! j = Some v -> free v = false ->
  sheltered (vertices st) j ->
  vertices (frames Math_sin Math_cos inputs st) !! j = Some v.
Proof.
  unfold frames. revert st.
  induction inputs as [|input inputs IH]; intros st Hj Hv Hsh; cbn [fold_left];
    [exact Hj|].
  destruct (useFrame_sheltered input.1 input.2 st j v Hsh (conj Hj Hv)) as [Hj' _].
  apply IH; [exact Hj'|exact Hv|].
  intros i a Hr Ha.
  destruct (useFrame_same Math_sin Math_cos input.1 input.2 st) as [Hs _].
  destruct (sameParticles_free _ _ _ _ Hs Ha) as (a0 & Ha0 & <-).
  eapply Hsh; eauto.
Qed.

End Anchors.

Section BasicRun.
Context {T : Type} `{Number T}.
Variables Math_sin Math_cos : T -> T.

(** X13. In the basic engine a fixed particle is the same after any run of
    frames: neither forces, nor the obstacle, nor the constraints move
    it. *)
Theorem basic_fixed_particle_never_moves inputs (st : Basic.State T) j v :
  Basic.vertices st !! j = Some v -> Basic.isFixed v = true ->
  Basic.vertices (Basic.frames Math_sin Math_cos inputs st) !! j = Some v.
Proof.
  unfold Basic.frames. revert st.
  induction inputs as [|input inputs IH]; intros st Hj Hv; cbn [fold_left];
    [exact Hj|].
  apply IH; [|exact Hv]. apply basic_fixed_particle_stays; assumption.
Qed.
End BasicRun.

(** ** The obstacle and the wind *)

Section RealBounds.
Local Open Scope R_scope.

(** X18. The obstacle stays in a box, at any time: in the advanced engine
    [|x| <= 1.1], [-0.9 <= y <= 0.5], [|z| <= 0.8]; in the basic engine
    [|x| <= 0.6], [-0.7 <= y <= 0.1], [|z| <= 0.4].  Moving it never changes
    its radius, and the advanced engine remembers where it was. *)
Theorem sphere_stays_in_box (Math_sin Math_cos : R -> R) (time : R)
    (s : Advanced.Sphere R) (s' : Basic.Sphere R) :
  bounded Math_sin -> bounded Math_cos ->
  let p := Advanced.sphere_position (Advanced.moveSphere Math_sin Math_cos time s) in
  let q := Basic.sphere_position (Basic.moveSphere Math_sin Math_cos time s') in
  (-11 / 10 <= THREE.x p <= 11 / 10
   /\ -9 / 10 <= THREE.y p <= 5 / 10
   /\ -8 / 10 <= THREE.z p <= 8 / 10)
  /\ (-6 / 10 <= THREE.x q <= 6 / 10
      /\ -7 / 10 <= THREE.y q <= 1 / 10
      /\ -4 / 10 <= THREE.z q <= 4 / 10)
  /\ Advanced.lastPosition (Advanced.moveSphere Math_sin Math_cos time s)
     = Advanced.sphere_position s
  /\ Advanced.radius (Advanced.moveSphere Math_sin Math_cos time s)
     = Advanced.radius s
  /\ Basic.radius (Basic.moveSphere Math_sin Math_cos time s') = Basic.radius s'.
Proof.
  intros Hs Hc. cbv zeta. unfold Advanced.moveSphere, Basic.moveSphere. cbn.
  repeat match goal with
  | |- context [Math_sin ?t] =>
      let H := fresh in pose proof (Hs t) as H; generalize dependent (Math_sin t); intros
  | |- context [Math_cos ?t] =>
      let H := fresh in pose proof (Hc t) as H; generalize dependent (Math_cos t); intros
  end.
  repeat split; lra.
Qed.

Lemma sphere_stays_in_box_witness :
  bounded sin /\ bounded cos
  /\ (let p := Advanced.sphere_position (Advanced.moveSphere sin cos 1 Scenario.restingSphere) in
      let q := Basic.sphere_position (Basic.moveSphere sin cos 1 Scenario.basicSphere) in
      (-11 / 10 <= THREE.x p <= 11 / 10
       /\ -9 / 10 <= THREE.y p <= 5 / 10
       /\ -8 / 10 <= THREE.z p <= 8 / 10)
      /\ (-6 / 10 <= THREE.x q <= 6 / 10
          /\ -7 / 10 <= THREE.y q <= 1 / 10
          /\ -4 / 10 <= THREE.z q <= 4 / 10)
      /\ Advanced.lastPosition (Advanced.moveSphere sin cos 1 Scenario.restingSphere)
         = Advanced.sphere_position Scenario.restingSphere
      /\ Advanced.radius (Advanced.moveSphere sin cos 1 Scenario.restingSphere)
         = Advanced.radius Scenario.restingSphere
      /\ Basic.radius (Basic.moveSphere sin cos 1 Scenario.basicSphere)
         = Basic.radius Scenario.basicSphere).
Proof.
  split; [exact SIN_bound|]. split; [exact COS_bound|].
  exact (sphere_stays_in_box sin cos 1 Scenario.restingSphere Scenario.basicSphere
           SIN_bound COS_bound).
Defined.

(** ** wind *)
Lemma Rabs_le_1 a : -1 <= a <= 1 -> Rabs a <= 1.
Proof. intros Ha. apply Rabs_le. lra. Qed.

Lemma scaled_bound (n k w : R) : Rabs n <= 1 -> 0 <= k -> Rabs (n * k * w) <= k * Rabs w.
Proof.
  intros Hn Hk. rewrite !Rabs_mult. rewrite (Rabs_right k) by lra.
  assert (Hkw : 0 <= k * Rabs w) by (apply Rmult_le_pos; [lra|apply Rabs_pos]).
  replace (Rabs n * k * Rabs w) with (Rabs n * (k * Rabs w)) by ring.
  rewrite <- (Rmult_1_l (k * Rabs w)) at 2.
  apply Rmult_le_compat_r; assumption.
Qed.

Lemma scaled_bound' (e n k w : R) :
  e = n * k * w -> Rabs n <= 1 -> 0 <= k -> Rabs e <= k * Rabs w.
Proof. intros ->. apply scaled_bound. Qed.

Lemma product_bound (a b : R) : -1 <= a <= 1 -> -1 <= b <= 1 -> Rabs (a * b) <= 1.
Proof.
  intros Ha Hb. rewrite Rabs_mult.
  pose proof (Rabs_le_1 a Ha). pose proof (Rabs_le_1 b Hb).
  pose proof (Rabs_pos a). pose proof (Rabs_pos b).
  replace 1 with (1 * 1) by ring. apply Rmult_le_compat; assumption.
Qed.

(** X19. The wind force on a particle is bounded, at any time and place,
    by the wind intensity: componentwise by [0.004], [0.0012] and [0.0032]
    times [|windIntensity|] in the advanced engine, and by [0.006],
    [0.0009] and [0.0042] times [|windIntensity|] in the basic engine. *)
Theorem wind_is_bounded (Math_sin Math_cos : R -> R) (time intensity : R)
    (p : THREE.Vector3 R) :
  bounded Math_sin -> bounded Math_cos ->
  let w := Advanced.windForce Math_sin Math_cos time intensity p in
  let u := Basic.windForce Math_sin Math_cos time intensity p in
  (Rabs (THREE.x w) <= 4 / 1000 * Rabs intensity
   /\ Rabs (THREE.y w) <= 12 / 10000 * Rabs intensity
   /\ Rabs (THREE.z w) <= 32 / 10000 * Rabs intensity)
  /\ (Rabs (THREE.x u) <= 6 / 1000 * Rabs intensity
      /\ Rabs (THREE.y u) <= 9 / 10000 * Rabs intensity
      /\ Rabs (THREE.z u) <= 42 / 10000 * Rabs intensity).
Proof.
  intros Hs Hc. cbv zeta.
  unfold Advanced.windForce, Basic.windForce, Advanced.WIND_STRENGTH, Basic.WIND_STRENGTH.
  cbn.
  repeat match goal with
  | |- context [Math_sin ?t] =>
      let H := fresh in pose proof (Hs t) as H; generalize dependent (Math_sin t); intros
  | |- context [Math_cos ?t] =>
      let H := fresh in pose proof (Hc t) as H; generalize dependent (Math_cos t); intros
  end.
  repeat split.
  - match goal with |- Rabs (?a * _ * _) <= ?k * _ =>
      apply (scaled_bound' _ a k); [lra|apply product_bound; assumption|lra] end.
  - match goal with |- Rabs (?a * _ * _ * _) <= ?k * _ =>
      apply (scaled_bound' _ a k); [lra|apply product_bound; assumption|lra] end.
  - match goal with |- Rabs (?a * _ * _ * _) <= ?k * _ =>
      apply (scaled_bound' _ a k); [lra|apply product_bound; assumption|lra] end.
  - match goal with |- Rabs (?a * _ * _) <= ?k * _ =>
      apply (scaled_bound' _ (a / 2) k); [lra|apply Rabs_le; lra|lra] end.
  - match goal with |- Rabs (?a * _ * _ * _) <= ?k * _ =>
      apply (scaled_bound' _ a k); [lra|apply Rabs_le_1; assumption|lra] end.
  - match goal with |- Rabs (?a * _ * _ * _) <= ?k * _ =>
      apply (scaled_bound' _ (a / 2) k); [lra|apply Rabs_le; lra|lra] end.
Qed.

End RealBounds.

Section RealBounce.
Local Open Scope R_scope.

Lemma length_squared (v : THREE.Vector3 R) :
  THREE.length v * THREE.length v = THREE.dot v v.
Proof.
  destruct v as [a b c]. unfold THREE.length, THREE.dot. cbn.
  apply sqrt_sqrt. nra.
Qed.

Lemma outward_unit p c :
  0 < THREE.length (THREE.sub p c) -> THREE.dot (outward p c) (outward p c) = 1.
Proof.
  intros Hd. unfold outward. pose proof (length_squared (THREE.sub p c)) as Hsq.
  set (t := THREE.sub p c) in *. set (d := THREE.length t) in *. clearbody d.
  destruct t as [a b e]. unfold THREE.dot, THREE.multiplyScalar in *. cbn in *.
  replace (a * / d * (a * / d) + b * / d * (b * / d) + e * / d * (e * / d))
    with ((a * a + b * b + e * e) * / (d * d)) by (field; lra).
  rewrite <- Hsq. field. lra.
Qed.

(** the collision code, for a particle inside the margin *)
Lemma sphereCollision_inside (s : Advanced.Sphere R) (v : Advanced.AdvancedVerletVertex R) :
  let c := Advanced.sphere_position s in
  let d := THREE.length (THREE.sub (Advanced.position v) c) in
  let m := Advanced.radius s + 8 / 100 in
  let n := outward (Advanced.position v) c in
  0 < d < m ->
  exists P,
    let O := Advanced.oldPosition v in
    let k := THREE.dot (THREE.sub P O) n in
    Advanced.sphereCollision s v
    = (if Rltb k (0 / 1)
       then Advanced.setOldPosition
              (THREE.sub O (THREE.multiplyScalar n (k * (-15 / 10))))
              (Advanced.setPosition P v)
       else Advanced.setPosition P v).
Proof.
  intros c d m n [Hd0 Hd].
  set (t := THREE.sub (Advanced.position v) c) in *.
  assert (Hcorr : THREE.normalize
                    (THREE.multiplyScalar (THREE.normalize t) (m - d)) = n).
  { rewrite (normalize_nonzero t) by (fold d; lra). fold d.
    rewrite multiplyScalar_twice.
    assert (Hl : THREE.length (THREE.multiplyScalar t (/ d * (m - d))) = m - d).
    { rewrite length_scaled. fold d. rewrite Rabs_right.
      - field. lra.
      - apply Rle_ge. apply Rmult_le_pos; [|lra]. left. apply Rinv_0_lt_compat. lra. }
    rewrite normalize_nonzero by (rewrite Hl; lra). rewrite Hl.
    rewrite multiplyScalar_twice. unfold n, outward. fold c. fold t. fold d. f_equal. field. lra. }
  exists (THREE.add (Advanced.position v)
            (THREE.multiplyScalar (THREE.normalize t) (m - d))).
  cbv zeta. unfold Advanced.sphereCollision. cbv zeta. fold c. fold t. fold d.
  change (nadd (Advanced.radius s) (lit 8 100)) with m.
  change (nltb d m && nltb (lit 0 1) d) with (Rltb d m && Rltb (0 / 1) d).
  rewrite (Rltb_true d m) by exact Hd.
  rewrite (Rltb_true (0 / 1) d) by lra. cbn [andb].
  change (nsub m d) with (m - d). rewrite Hcorr. reflexivity.
Qed.

(** X20. The bounce of the advanced engine, in exact arithmetic, for a
    particle inside the collision shell and not at the centre.  With [n]
    the outward normal and [u] the displacement of the frame measured after
    the push-out: if the particle was going inwards ([u . n < 0]) its old
    position is moved so that the normal component of the displacement is
    reversed and halved; otherwise its old position is kept.  Either way
    the particle leaves the call not going inwards. *)
Theorem sphere_bounce (s : Advanced.Sphere R) (v : Advanced.AdvancedVerletVertex R) :
  let c := Advanced.sphere_position s in
  let d := THREE.length (THREE.sub (Advanced.position v) c) in
  let n := outward (Advanced.position v) c in
  let r := Advanced.sphereCollision s v in
  let u := THREE.sub (Advanced.position r) (Advanced.oldPosition v) in
  let u' := THREE.sub (Advanced.position r) (Advanced.oldPosition r) in
  0 < d < Advanced.radius s + 8 / 100 ->
  (THREE.dot u n < 0 -> THREE.dot u' n = - (1 / 2) * THREE.dot u n)
  /\ (0 <= THREE.dot u n -> Advanced.oldPosition r = Advanced.oldPosition v)
  /\ 0 <= THREE.dot u' n.
Proof.
  intros c d n r u u' Hd.
  assert (Hn : THREE.dot n n = 1) by (apply outward_unit; apply Hd).
  destruct (sphereCollision_inside s v Hd) as (P & Hr). cbv zeta in Hr.
  fold c in Hr. fold n in Hr. fold r in Hr.
  subst u u'. clearbody r n. subst r.
  destruct (Advanced.oldPosition v) as [o1 o2 o3] eqn:HO.
  destruct P as [p1 p2 p3], n as [n1 n2 n3].
  unfold THREE.dot in Hn. cbn in Hn.
  set (k := THREE.dot (THREE.sub (THREE.mk p1 p2 p3) (THREE.mk o1 o2 o3)) (THREE.mk n1 n2 n3)).
  assert (Hk : k = (p1 - o1) * n1 + (p2 - o2) * n2 + (p3 - o3) * n3) by reflexivity.
  clearbody k.
  destruct (Rlt_dec k 0) as [Hneg|Hpos].
  - rewrite (Rltb_true k (0 / 1)) by lra.
    cbn [Advanced.setOldPosition Advanced.setPosition Advanced.position Advanced.oldPosition].
    rewrite ?HO. unfold THREE.dot, THREE.sub, THREE.multiplyScalar. cbn.
    rewrite <- ?Hk.
    assert (E : (p1 - (o1 - n1 * (k * (-15 / 10)))) * n1
                + (p2 - (o2 - n2 * (k * (-15 / 10)))) * n2
                + (p3 - (o3 - n3 * (k * (-15 / 10)))) * n3
                = - (1 / 2) * k).
    { replace ((p1 - (o1 - n1 * (k * (-15 / 10)))) * n1
                + (p2 - (o2 - n2 * (k * (-15 / 10)))) * n2
                + (p3 - (o3 - n3 * (k * (-15 / 10)))) * n3)
        with (((p1 - o1) * n1 + (p2 - o2) * n2 + (p3 - o3) * n3)
              + (k * (-15 / 10)) * (n1 * n1 + n2 * n2 + n3 * n3)) by ring.
      rewrite <- Hk, Hn. field. }
    rewrite E. repeat split; intros; lra.
  - rewrite (Rltb_false k (0 / 1)) by lra.
    cbn [Advanced.setOldPosition Advanced.setPosition Advanced.position Advanced.oldPosition].
    rewrite ?HO. unfold THREE.dot, THREE.sub. cbn. rewrite <- ?Hk.
    repeat split; intros; try reflexivity; lra.
Qed.

End RealBounce.

(** ** The control panel *)

Section AppProperties.
Context {T : Type} `{Number T}.
Import App.

(** X21. The control panel.  The key of the cloth grows by one at every
    change of cloth type and every reset, and at nothing else.  A reset
    restores neither the cloth type nor the tearing switch: after any
    sequence of requests they, and the component [Scene] renders, are what
    the same sequence without its resets gives. *)
Theorem reset_keeps_type_and_tearing (events : list (Event T)) (st : State T) :
  resetKey (run events st)
  = resetKey st + List.length (List.filter remounts events)
  /\ clothType (clothSettings (run events st))
     = clothType (clothSettings (run (withoutResets events) st))
  /\ enableTearing (clothSettings (run events st))
     = enableTearing (clothSettings (run (withoutResets events) st))
  /\ (Scene (run events st)).1 = (Scene (run (withoutResets events) st)).1.
Proof.
  unfold withoutResets.
  assert (Hkey : forall st : State T,
    resetKey (run events st)
    = resetKey st + List.length (List.filter remounts events)).
  { induction events as [|e events IH]; intros s; [cbn; lia|].
    unfold run in *. cbn [fold_left List.filter]. rewrite IH.
    destruct e; cbn; lia. }
  assert (Hgen : forall st st' : State T,
    clothType (clothSettings st) = clothType (clothSettings st') ->
    enableTearing (clothSettings st) = enableTearing (clothSettings st') ->
    clothType (clothSettings (run events st))
    = clothType (clothSettings
        (run (List.filter (fun e => negb (isReset e)) events) st'))
    /\ enableTearing (clothSettings (run events st))
       = enableTearing (clothSettings
           (run (List.filter (fun e => negb (isReset e)) events) st'))).
  { clear Hkey. induction events as [|e events IH]; intros s s' Ht Hr; [auto|].
    unfold run in *. cbn [fold_left List.filter].
    destruct e; cbn [isReset negb fold_left]; apply IH; cbn; auto. }
  destruct (Hgen st st eq_refl eq_refl) as [Ht Hr].
  split; [apply Hkey|]. split; [exact Ht|]. split; [exact Hr|].
  unfold Scene. cbn [fst]. rewrite Ht. reflexivity.
Qed.

End AppProperties.

(** ** Instances

    Each property above that has a premise, at an input where the premise
    holds. *)

Lemma grid_layout_witness :
  1 <= 1 /\ 0 <= 1
  /\ List.length (Advanced.initVerticesWith (T:=float) 1 1 (fun _ => lit 5 10))
     = (1 + 1) * (1 + 1)
  /\ Advanced.initVerticesWith (T:=float) 1 1 (fun _ => lit 5 10)
       !! (0 * (1 + 1) + 1)
     = Some (Advanced.gridVertex 1 1 (lit 5 10) 1 0)
  /\ List.length (Basic.initVerticesWith (T:=float) 1 1) = (1 + 1) * (1 + 1)
  /\ Basic.initVerticesWith (T:=float) 1 1 !! (0 * (1 + 1) + 1)
     = Some (Basic.gridVertex 1 1 1 0).
Proof.
  split; [lia|]. split; [lia|].
  apply (grid_layout (T:=float) 1 1 (fun _ => lit 5 10) 1 0); lia.
Defined.

Lemma grid_anchors_witness :
  Advanced.initVerticesWith (T:=float) 6 1 (fun _ => lit 5 10) !! 6
  = Some (Advanced.gridVertex 6 1 (lit 5 10) 6 0)
  /\ Basic.initVerticesWith (T:=float) 6 1 !! 6 = Some (Basic.gridVertex 6 1 6 0)
  /\ Advanced.isFixed (Advanced.gridVertex (T:=float) 6 1 (lit 5 10) 6 0) = true
  /\ Basic.isFixed (Basic.gridVertex (T:=float) 6 1 6 0) = false.
Proof.
  assert (Ha : Advanced.initVerticesWith (T:=float) 6 1 (fun _ => lit 5 10) !! 6
               = Some (Advanced.gridVertex 6 1 (lit 5 10) 6 0)) by reflexivity.
  assert (Hb : Basic.initVerticesWith (T:=float) 6 1 !! 6
               = Some (Basic.gridVertex 6 1 6 0)) by reflexivity.
  split; [exact Ha|]. split; [exact Hb|].
  destruct (grid_anchors 6 1 (fun _ => lit 5 10) 6 _ _ Ha Hb)
    as (Hfixed & _ & Hbasic & _).
  split.
  - apply Hfixed. split; [lia|]. right. left. reflexivity.
  - destruct (Basic.isFixed (Basic.gridVertex (T:=float) 6 1 6 0)) eqn:E;
      [|reflexivity].
    destruct (proj1 Hbasic ltac:(reflexivity)) as [_ E']. discriminate.
Defined.

Lemma grid_masses_witness :
  (forall n : nat, 0 <= (fun _ => 1 / 2) n < 1)%R
  /\ Advanced.initVerticesWith 1 1 (fun _ => 1 / 2)%R !! 0
     = Some (Advanced.gridVertex 1 1 (1 / 2)%R 0 0)
  /\ (8 / 10 <= Advanced.mass (Advanced.gridVertex 1 1 (1 / 2) 0 0) < 12 / 10)%R.
Proof.
  assert (Hr : forall n : nat, (0 <= (fun _ => 1 / 2) n < 1)%R) by (intros; lra).
  assert (Hv : Advanced.initVerticesWith 1 1 (fun _ => 1 / 2)%R !! 0
               = Some (Advanced.gridVertex 1 1 (1 / 2)%R 0 0)) by reflexivity.
  split; [exact Hr|]. split; [exact Hv|].
  exact (grid_masses 1 1 (fun _ => 1 / 2)%R 0 _ Hr Hv).
Defined.

Section RealWitnesses.
Local Open Scope R_scope.

(** the distance between two particles of the x axis *)
Lemma distance_along_x (a b : R) :
  a <= b ->
  THREE.distanceTo (Advanced.position (Scenario.particle a))
                   (Advanced.position (Scenario.particle b)) = b - a.
Proof.
  intros Hab. unfold THREE.distanceTo, THREE.distanceToSquared. cbn.
  replace ((a - b) * (a - b) + (0 / 1 - 0 / 1) * (0 / 1 - 0 / 1)
           + (0 / 1 - 0 / 1) * (0 / 1 - 0 / 1))
    with ((b - a) * (b - a)) by (unfold Rdiv; ring).
  apply sqrt_square. lra.
Qed.


Lemma satisfy_keeps_centre_of_mass_witness :
  Advanced.mass (Scenario.massive (1 / 1) (0 / 1))
  + Advanced.mass (Scenario.massive (3 / 1) (5 / 10)) <> 0
  /\ exists a' b',
       (Advanced.satisfy Scenario.unitLink Scenario.unequalPair).2 !! 0%nat
       = Some a'
       /\ (Advanced.satisfy Scenario.unitLink Scenario.unequalPair).2 !! 1%nat
          = Some b'
       /\ THREE.add (THREE.multiplyScalar (Advanced.position a') (1 / 1))
                    (THREE.multiplyScalar (Advanced.position b') (3 / 1))
          = THREE.add
              (THREE.multiplyScalar
                 (Advanced.position (Scenario.massive (1 / 1) (0 / 1))) (1 / 1))
              (THREE.multiplyScalar
                 (Advanced.position (Scenario.massive (3 / 1) (5 / 10))) (3 / 1)).
Proof.
  assert (Hm : Advanced.mass (Scenario.massive (1 / 1) (0 / 1))
               + Advanced.mass (Scenario.massive (3 / 1) (5 / 10)) <> 0)
    by (cbn; lra).
  split; [exact Hm|].
  apply (satisfy_keeps_centre_of_mass Scenario.unitLink Scenario.unequalPair
           (Scenario.massive (1 / 1) (0 / 1)) (Scenario.massive (3 / 1) (5 / 10)));
    [reflexivity|reflexivity|cbn; lia|reflexivity|reflexivity|exact Hm].
Defined.

Lemma basic_relaxation_converges_witness :
  0 <= 4 / 10 <= 1
  /\ 0 < Basic.restLength (Scenario.basicUnitLink (T:=R))
  /\ freePair Scenario.basicStretchedPair 0 1 2
  /\ freePair (Nat.iter 3 (Basic.satisfyWith (4 / 10) Scenario.basicUnitLink)
                       Scenario.basicStretchedPair)
              (Basic.v1 (Scenario.basicUnitLink (T:=R)))
              (Basic.v2 (Scenario.basicUnitLink (T:=R)))
              (Basic.restLength Scenario.basicUnitLink
               + (1 - 4 / 10) ^ 3 * (2 - Basic.restLength Scenario.basicUnitLink)).
Proof.
  assert (Hs : 0 <= 4 / 10 <= 1) by lra.
  assert (HL : 0 < Basic.restLength (Scenario.basicUnitLink (T:=R)))
    by (cbn; lra).
  assert (Hp : freePair Scenario.basicStretchedPair 0 1 2).
  { exists (Scenario.basicParticle (0 / 1)), (Scenario.basicParticle (2 / 1)).
    repeat split. unfold THREE.length, THREE.sub. cbn.
    replace ((2 / 1 - 0 / 1) * (2 / 1 - 0 / 1)
             + (0 / 1 - 0 / 1) * (0 / 1 - 0 / 1)
             + (0 / 1 - 0 / 1) * (0 / 1 - 0 / 1))
      with (2 * 2) by (unfold Rdiv; field).
    apply sqrt_square. lra. }
  split; [exact Hs|]. split; [exact HL|]. split; [exact Hp|].
  apply (basic_relaxation_converges (4 / 10) Scenario.basicUnitLink
           Scenario.basicStretchedPair 2 3);
    [cbn; lia|exact Hs|exact HL|lra|exact Hp].
Defined.

Lemma satisfy_at_rest_witness :
  Advanced.gap Scenario.restingPair 0 1
  = Some (Advanced.restLength (Scenario.restLink (T:=R)))
  /\ Advanced.satisfy Scenario.restLink Scenario.restingPair
     = (Advanced.tear Scenario.restLink, Scenario.restingPair).
Proof.
  assert (Hgap : Advanced.gap Scenario.restingPair 0 1
                 = Some (Advanced.restLength (Scenario.restLink (T:=R)))).
  { unfold Advanced.gap. cbn [lookup list_lookup Scenario.restingPair].
    f_equal. rewrite distance_along_x; cbn; lra. }
  split; [exact Hgap|].
  apply (satisfy_at_rest Scenario.restLink Scenario.restingPair);
    [reflexivity|exact Hgap|cbn; lra].
Defined.

End RealWitnesses.

Lemma frame_resets_acceleration_witness :
  Advanced.meshMounted (Scenario.frameAt (T:=float) (lit 0 1)) = true
  /\ exists v,
       Advanced.vertices
         (Advanced.useFrame (fun x => x) (fun x => x) Scenario.tearingOn
            (Scenario.frameAt (lit 0 1)) Scenario.restState) !! 1
       = Some v
       /\ Advanced.free v = true
       /\ Advanced.acceleration v
          = THREE.mk (lit (T:=float) 0 1) (lit 0 1) (lit 0 1).
Proof.
  split; [reflexivity|]. eexists. split; [vm_compute; reflexivity|].
  split; [reflexivity|].
  apply (frame_resets_acceleration (T:=float) (fun x => x) (fun x => x)
           Scenario.tearingOn (Scenario.frameAt (lit 0 1)) Scenario.restState 1);
    [reflexivity|vm_compute; reflexivity|reflexivity].
Defined.

Lemma sheltered_particle_never_moves_witness :
  Advanced.free (Scenario.anchor (T:=float)) = false
  /\ sheltered [Scenario.anchor (T:=float); Scenario.particle (lit 1 1)] 0
  /\ Advanced.vertices
       (Advanced.frames (fun x => x) (fun x => x)
          [(Scenario.tearingOn, Scenario.frameAt (lit 0 1));
           (Scenario.tearingOn, Scenario.frameAt (lit 16 1000))]
          (Advanced.mkState [Scenario.anchor; Scenario.particle (lit 1 1)] []
                            Scenario.restingSphere 0)) !! 0
     = Some (Scenario.anchor (T:=float)).
Proof.
  assert (Hs : sheltered [Scenario.anchor (T:=float); Scenario.particle (lit 1 1)] 0).
  { intros i a [Hle _]. lia. }
  split; [reflexivity|]. split; [exact Hs|].
  apply (sheltered_particle_never_moves (T:=float) (fun x => x) (fun x => x));
    [reflexivity|reflexivity|exact Hs].
Defined.

Lemma basic_fixed_particle_never_moves_witness :
  Basic.isFixed (Basic.newVertex (T:=float) (lit 0 1) (lit 0 1) (lit 0 1) true)
  = true
  /\ Basic.vertices
       (Basic.frames (fun x => x) (fun x => x)
          [(Basic.mkProps true (lit 1 1), Basic.mkFrame true (lit 0 1) (lit 16 1000));
           (Basic.mkProps true (lit 1 1),
            Basic.mkFrame true (lit 16 1000) (lit 16 1000))]
          (Basic.mkState
             [Basic.newVertex (lit 0 1) (lit 0 1) (lit 0 1) true;
              Scenario.basicParticle (lit 1 1)]
             [Scenario.basicUnitLink] Scenario.basicSphere 0)) !! 0
     = Some (Basic.newVertex (T:=float) (lit 0 1) (lit 0 1) (lit 0 1) true).
Proof.
  split; [reflexivity|].
  apply (basic_fixed_particle_never_moves (T:=float) (fun x => x) (fun x => x));
    reflexivity.
Defined.

Section RealWitnesses2.
Local Open Scope R_scope.

Lemma wind_is_bounded_witness :
  bounded sin /\ bounded cos
  /\ Rabs (THREE.x (Advanced.windForce sin cos 1 2 Scenario.origin))
     <= 4 / 1000 * Rabs 2
  /\ Rabs (THREE.x (Basic.windForce sin cos 1 2 Scenario.origin))
     <= 6 / 1000 * Rabs 2.
Proof.
  split; [exact SIN_bound|]. split; [exact COS_bound|].
  destruct (wind_is_bounded sin cos 1 2 Scenario.origin SIN_bound COS_bound)
    as [(Ha & _) (Hb & _)].
  split; [exact Ha|exact Hb].
Defined.

Lemma sphere_bounce_witness :
  0 < THREE.length
        (THREE.sub (THREE.mk (2 / 10) (lit 0 1) (lit 0 1)) Scenario.origin)
    < Advanced.radius Scenario.restingSphere + 8 / 100
  /\ 0 <= THREE.dot
            (THREE.sub
               (Advanced.position
                  (Advanced.sphereCollision Scenario.restingSphere
                     (Advanced.mkVertex
                        (THREE.mk (2 / 10) (lit 0 1) (lit 0 1))
                        (THREE.mk (3 / 10) (lit 0 1) (lit 0 1))
                        Scenario.origin false (lit 1 1) false)))
               (Advanced.oldPosition
                  (Advanced.sphereCollision Scenario.restingSphere
                     (Advanced.mkVertex
                        (THREE.mk (2 / 10) (lit 0 1) (lit 0 1))
                        (THREE.mk (3 / 10) (lit 0 1) (lit 0 1))
                        Scenario.origin false (lit 1 1) false))))
            (outward (THREE.mk (2 / 10) (lit 0 1) (lit 0 1)) Scenario.origin).
Proof.
  assert (Hd : 0 < THREE.length
                     (THREE.sub (THREE.mk (2 / 10) (lit 0 1) (lit 0 1))
                                Scenario.origin)
               < Advanced.radius Scenario.restingSphere + 8 / 100).
  { rewrite length_along_x by lra. cbn. lra. }
  split; [exact Hd|].
  apply (sphere_bounce Scenario.restingSphere
           (Advanced.mkVertex (THREE.mk (2 / 10) (lit 0 1) (lit 0 1))
                              (THREE.mk (3 / 10) (lit 0 1) (lit 0 1))
                              Scenario.origin false (lit 1 1) false) Hd).
Defined.

End RealWitnesses2.
